(** * ai-pr-reviewer: diff line mapping and comment de-duplication

    A shallow embedding of the pure text-processing core of
    [src/github/pullRequest.js]:

    - [extractValidCommentLines]  (the spec's [computeCommentableLines]),
    - [isDuplicateComment]        (the spec's [isDuplicate]),
    - [extractCommentTemplate]    (the spec's [templatize]),
    - [extractKeywordsFromComment], [calculateKeywordOverlap],
      [stringSimilarity], [wordBasedSimilarity], [levenshteinDistance].

    Modelling conventions.

    - A JavaScript string is a sequence of code units; here a [text] is a
      [list ascii], i.e. the code units are restricted to U+0000..U+00FF.
    - Line numbers and the cursor are JavaScript numbers holding integers
      that are not negative.  They are modelled as [Z]; where the code
      computes a number ([parseInt], [currentLine++]) the result is rounded
      as a double is ([toDouble]), which changes nothing up to 2^53.
    - The similarity scores are ratios of small natural numbers compared
      with the decimal constants 0.5, 0.6 and 0.85; they are modelled as
      exact rationals [Q].
    - Every regular expression of the source is rendered as the scanner it
      denotes; the rendering is explained next to each definition.
    - [console.log] calls are omitted: they do not influence any result. *)

From Stdlib Require Import String Ascii List Bool Arith ZArith QArith Lia.
From Stdlib Require Import Permutation Sorted Lqa DecimalString.
Import ListNotations.

Close Scope Q_scope.
Local Open Scope bool_scope.
Local Open Scope nat_scope.
Local Open Scope list_scope.

(** ** JavaScript strings *)

Definition text := list ascii.

(** String literal: [str "abc"] is the text [abc]. *)
Definition str (s : string) : text := list_ascii_of_string s.

(** The line-feed character, JavaScript's ['\n']. *)
Definition LF : ascii := "010"%char.

Module Char.

Definition code (c : ascii) : N := N_of_ascii c.

Definition inRange (lo hi : N) (c : ascii) : bool :=
  (lo <=? code c)%N && (code c <=? hi)%N.

(** [\d], [[0-9]] *)
Definition isDigit (c : ascii) : bool := inRange 48 57 c.
(** [[A-Z]] *)
Definition isUpper (c : ascii) : bool := inRange 65 90 c.
(** [[a-z]] *)
Definition isLower (c : ascii) : bool := inRange 97 122 c.
(** [[a-zA-Z]] *)
Definition isLetter (c : ascii) : bool := isUpper c || isLower c.
(** [\w], [[a-zA-Z0-9_]]; [\W] is its complement. *)
Definition isWord (c : ascii) : bool :=
  isLetter c || isDigit c || (code c =? 95)%N.
(** [[A-Z0-9_]] *)
Definition isUpperWord (c : ascii) : bool :=
  isUpper c || isDigit c || (code c =? 95)%N.
(** [\s] and the characters removed by [trim]: TAB, LF, VT, FF, CR,
    space and the no-break space U+00A0. *)
Definition isSpace (c : ascii) : bool :=
  inRange 9 13 c || (code c =? 32)%N || (code c =? 160)%N.

(** [toLowerCase] on one code unit: A-Z and the Latin-1 capitals
    U+00C0..U+00DE (except the multiplication sign U+00D7) move up by 32. *)
Definition toLower (c : ascii) : ascii :=
  if isUpper c || (inRange 192 222 c && negb (code c =? 215)%N)
  then ascii_of_N (code c + 32)
  else c.

End Char.

Module JS.

Import Char.

Definition toLowerCase (s : text) : text := map toLower s.

(** [s.startsWith(p)] *)
Fixpoint startsWith (p s : text) : bool :=
  match p, s with
  | [], _ => true
  | a :: p', b :: s' => Ascii.eqb a b && startsWith p' s'
  | _ :: _, [] => false
  end.

(** [s.includes(p)] on strings: [p] occurs in [s] as a substring. *)
Fixpoint includes (p s : text) : bool :=
  startsWith p s ||
  match s with
  | [] => false
  | _ :: s' => includes p s'
  end.

Definition text_eqb (a b : text) : bool :=
  if list_eq_dec ascii_dec a b then true else false.

(** [arr.includes(w)] on an array of strings. *)
Definition arrayIncludes (arr : list text) (w : text) : bool :=
  existsb (text_eqb w) arr.

(** Longest prefix of characters of a class, and what follows it: the
    greedy [c*] of a regular expression whose continuation cannot start
    with a character of the class. *)
Fixpoint takeWhile (f : ascii -> bool) (s : text) : text :=
  match s with
  | c :: r => if f c then c :: takeWhile f r else []
  | [] => []
  end.

Fixpoint dropWhile (f : ascii -> bool) (s : text) : text :=
  match s with
  | c :: r => if f c then dropWhile f r else s
  | [] => []
  end.

(** [s.split(sep)] with a one-character separator string; the result is
    never empty ([''.split(sep)] is [['']]). *)
Fixpoint split (sep : ascii) (s : text) : list text :=
  match s with
  | [] => [[]]
  | c :: r =>
      if Ascii.eqb c sep then [] :: split sep r
      else match split sep r with
           | w :: ws => (c :: w) :: ws
           | [] => [[c]]
           end
  end.

(** [s.split(/C+/)] for a character class [C]: the separators are the
    maximal runs of class characters.  [inSep] tells that the previous
    character belonged to the separator being skipped. *)
Fixpoint splitRuns (sep : ascii -> bool) (inSep : bool) (s : text)
  : list text :=
  match s with
  | [] => [[]]
  | c :: r =>
      if sep c then
        if inSep then splitRuns sep true r
        else [] :: splitRuns sep true r
      else match splitRuns sep false r with
           | w :: ws => (c :: w) :: ws
           | [] => [[c]]
           end
  end.

Definition splitRegex (sep : ascii -> bool) (s : text) : list text :=
  splitRuns sep false s.

(** [s.trim()] *)
Definition trimStart (s : text) : text := dropWhile isSpace s.
Definition trim (s : text) : text := rev (trimStart (rev (trimStart s))).

(** The integer that a non-empty string of decimal digits denotes;
    [parseInt(d, 10)] is the double nearest to it, [toDouble (parseInt d)]
    below. *)
Definition digitVal (c : ascii) : Z := Z.of_N (code c) - 48.
Definition parseInt (d : text) : Z :=
  fold_left (fun acc c => 10 * acc + digitVal c)%Z d 0%Z.

(** A JavaScript number is a double.  The numbers met here are integers
    that are not negative: below 2^53 each of them is a double; a larger
    one is rounded to the nearest integer that has 53 significant bits, to
    the one with the even significand when two are as near; and when the
    rounded value reaches 2^1024 the result is [Infinity], for which the
    integer 2^1024 stands. *)
Definition maxExact : Z := 9007199254740992.
Definition infinity : Z := (2 ^ 1024)%Z.

Definition toDouble (z : Z) : Z :=
  if (z <? maxExact)%Z then z
  else
    let e := (Z.log2 z - 52)%Z in
    let q := (z / 2 ^ e)%Z in
    let r := (z mod 2 ^ e)%Z in
    let half := (2 ^ (e - 1))%Z in
    let q' := if (r <? half)%Z then q
              else if (half <? r)%Z then (q + 1)%Z
              else if Z.even q then q else (q + 1)%Z in
    Z.min (q' * 2 ^ e) infinity.

(** [arr.join(sep)] with a one-character separator. *)
Fixpoint join (sep : ascii) (l : list text) : text :=
  match l with
  | [] => []
  | [w] => w
  | w :: ws => w ++ sep :: join sep ws
  end.

End JS.

(** ** Diff line mapper: [extractValidCommentLines] *)

Module Diff.

Import Char JS.

(** A literal piece of a pattern: the rest of the input after it. *)
Definition expect (lit : string) (s : text) : option text :=
  if startsWith (str lit) s then Some (skipn (length (str lit)) s)
  else None.

(** [\d+]: the digits read and the rest.  What follows [\d+] in the
    header pattern is never a digit, so only the longest run can match. *)
Definition digits1 (s : text) : option (text * text) :=
  match takeWhile isDigit s with
  | [] => None
  | d => Some (d, dropWhile isDigit s)
  end.

(** [(?:,\d+)?]: skipped when absent.  When the group cannot match, what
    follows in the pattern is a space, so the input is returned as it is
    and the next [expect] decides. *)
Definition optCommaDigits (s : text) : text :=
  match s with
  | c :: r =>
      if Ascii.eqb c ","%char then
        match digits1 r with
        | Some (_, r') => r'
        | None => s
        end
      else s
  | [] => s
  end.

(** [/@@ -\d+(?:,\d+)? \+(\d+)(?:,\d+)? @@/] tried at the start of [s];
    the result is capture group 1. *)
Definition matchHeaderAt (s : text) : option text :=
  match expect "@@ -" s with
  | None => None
  | Some s1 =>
    match digits1 s1 with
    | None => None
    | Some (_, s2) =>
      match expect " +" (optCommaDigits s2) with
      | None => None
      | Some s4 =>
        match digits1 s4 with
        | None => None
        | Some (g1, s5) =>
          match expect " @@" (optCommaDigits s5) with
          | None => None
          | Some _ => Some g1
          end
        end
      end
    end
  end.

(** [line.match(...)]: the pattern is not anchored, so the first position
    of the line where it matches is taken. *)
Fixpoint matchHeader (s : text) : option text :=
  match matchHeaderAt s with
  | Some g => Some g
  | None =>
      match s with
      | [] => None
      | _ :: r => matchHeader r
      end
  end.

(** The loop state: the array [validLines] and the cursor [currentLine]
    ([None] is JavaScript's [null]).  The cursor is a double:
    [currentLine++] adds one and rounds, which changes nothing below 2^53
    and no longer counts every line beyond. *)
Record scan : Type := mkScan
  { validLines : list Z;
    currentLine : option Z }.

Definition init : scan := mkScan [] None.

(** Added or unchanged lines can be commented on. *)
Definition isCommentable (line : text) : bool :=
  startsWith (str "+") line || startsWith (str " ") line.

(** One iteration of [for (const line of lines)]. *)
Definition step (st : scan) (line : text) : scan :=
  if startsWith (str "@@") line then
    match matchHeader line with
    | Some g => mkScan (validLines st) (Some (toDouble (parseInt g)))
    | None => st
    end
  else
    match currentLine st with
    | Some n =>
        if isCommentable line
        then mkScan (validLines st ++ [n]) (Some (toDouble (n + 1)))
        else st
    | None => st
    end.

Definition scanLines (lines : list text) : scan := fold_left step lines init.

Definition extractValidCommentLines (diff : text) : list Z :=
  match diff with
  | [] => []
  | _ => validLines (scanLines (split LF diff))
  end.

End Diff.

(** ** Regular-expression replacement and matching

    [String.prototype.replace] with a global pattern and
    [String.prototype.match] with a global pattern walk the input from left
    to right: the pattern is tried at the current position; on a match the
    replacement (or the matched text) is emitted and the walk resumes right
    after the match; otherwise the character is passed over and the walk
    moves one position on.  All patterns of the source match at least one
    character.

    A pattern is given by what it does at one position: [prev] is the
    character before the position ([None] at the start of the input; needed
    for [\b]) and [s] is the input from the position on. *)

Module Regex.

Import Char JS.

(** A match spans [fst] characters and is replaced by [snd]. *)
Definition rewriter := option ascii -> text -> option (nat * text).

(** [skip] counts the characters of the current match still to be passed. *)
Fixpoint replaceFrom (m : rewriter) (skip : nat) (prev : option ascii)
  (s : text) : text :=
  match s with
  | [] => []
  | c :: r =>
      match skip with
      | S k => replaceFrom m k (Some c) r
      | O =>
          match m prev s with
          | Some (len, repl) => repl ++ replaceFrom m (pred len) (Some c) r
          | None => c :: replaceFrom m 0 (Some c) r
          end
      end
  end.

(** [s.replace(/.../g, ...)] *)
Definition replaceAll (m : rewriter) (s : text) : text :=
  replaceFrom m 0 None s.

(** [s.replace(/.../, ...)] without the [g] flag: the first match only. *)
Fixpoint replaceFirstFrom (m : rewriter) (prev : option ascii) (s : text)
  : text :=
  match s with
  | [] => []
  | c :: r =>
      match m prev s with
      | Some (len, repl) => repl ++ skipn len s
      | None => c :: replaceFirstFrom m (Some c) r
      end
  end.

Definition replaceFirst (m : rewriter) (s : text) : text :=
  replaceFirstFrom m None s.

(** A pattern used for matching only: the length of the match. *)
Definition recognizer := option ascii -> text -> option nat.

Fixpoint matchFrom (m : recognizer) (skip : nat) (prev : option ascii)
  (s : text) : list text :=
  match s with
  | [] => []
  | c :: r =>
      match skip with
      | S k => matchFrom m k (Some c) r
      | O =>
          match m prev s with
          | Some len => firstn len s :: matchFrom m (pred len) (Some c) r
          | None => matchFrom m 0 (Some c) r
          end
      end
  end.

(** [s.match(/.../g) || []] *)
Definition matchAll (m : recognizer) (s : text) : list text :=
  matchFrom m 0 None s.

(** [\b] in front of a word character: the previous character is not a
    word character, or there is none. *)
Definition atWordStart (prev : option ascii) : bool :=
  match prev with
  | None => true
  | Some p => negb (isWord p)
  end.

(** The character before the position reached after passing over [a]. *)
Definition prevAfter (prev : option ascii) (a : text) : option ascii :=
  fold_left (fun _ c => Some c) a prev.

(** The text is empty or starts with a character that is not a word
    character: where a greedy run of word characters stops. *)
Definition startsNoWord (s : text) : bool :=
  match s with
  | [] => true
  | d :: _ => negb (isWord d)
  end.

(** Alternation [a|b]: the first alternative that matches wins. *)
Definition orElse (a b : recognizer) : recognizer :=
  fun prev s =>
    match a prev s with
    | Some n => Some n
    | None => b prev s
    end.

End Regex.

(** ** Comment templates: [extractCommentTemplate] *)

Module Template.

Import Char JS Regex.

Definition commonWords : list text := map str
  [ "the"; "if"; "on"; "in"; "at"; "by"; "for"; "with"; "about"; "against";
    "between"; "into"; "through"; "during"; "before"; "after"; "above";
    "below"; "from"; "up"; "down"; "may"; "will"; "can"; "must"; "should";
    "could"; "would"; "might"; "every"; "some"; "other"; "such"; "only";
    "then"; "than"; "when"; "been"; "this"; "that"; "these"; "those";
    "their"; "has"; "have"; "had"; "not"; "and"; "but"; "or"; "as"; "what";
    "all" ]%string.

Definition isCommonWord (word : text) : bool :=
  arrayIncludes commonWords (toLowerCase word).

Definition keywords : list text := map str
  [ "function"; "return"; "if"; "else"; "for"; "while"; "break"; "continue";
    "class"; "interface"; "extends"; "implements"; "import"; "export";
    "try"; "catch"; "finally"; "throw"; "async"; "await"; "new"; "this";
    "const"; "let"; "var"; "void"; "null"; "undefined"; "true"; "false";
    "public"; "private"; "protected"; "static"; "final"; "abstract";
    "default"; "delete"; "instanceof"; "typeof"; "yield"; "get"; "set";
    "in"; "of"; "switch"; "case"; "super"; "with" ]%string.

Definition isCodeKeyword (word : text) : bool :=
  arrayIncludes keywords (toLowerCase word).

(** [/^[a-z][a-zA-Z0-9_]*$/] *)
Definition looksLikeVariable (w : text) : bool :=
  match w with
  | c :: r => isLower c && forallb isWord r
  | [] => false
  end.

(** [/^[A-Z][a-zA-Z0-9_]*$/] *)
Definition looksLikeClass (w : text) : bool :=
  match w with
  | c :: r => isUpper c && forallb isWord r
  | [] => false
  end.

(** [[a-z0-9_]] *)
Definition isLowerWord (c : ascii) : bool :=
  isLower c || isDigit c || (code c =? 95)%N.

(** [/^[a-z][a-z0-9_]*_[a-z0-9_]+$/]: a lower-case letter, then only
    characters of [[a-z0-9_]], one of which, not the last, is [_]. *)
Definition looksLikeSnake (w : text) : bool :=
  match w with
  | c :: r =>
      isLower c && forallb isLowerWord r
      && existsb (Ascii.eqb "_"%char) (removelast r)
  | [] => false
  end.

(** [/^[A-Z][A-Z0-9_]*$/] *)
Definition looksLikeConstant (w : text) : bool :=
  match w with
  | c :: r => isUpper c && forallb isUpperWord r
  | [] => false
  end.

(** The callback of Case 1. *)
Definition classify (match_ : text) : text :=
  if isCommonWord match_ then match_
  else if isCodeKeyword match_ then match_
  else if looksLikeVariable match_ then str "{var}"
  else if looksLikeClass match_ then str "{Class}"
  else if looksLikeSnake match_ then str "{snake_var}"
  else if looksLikeConstant match_ then str "{CONST}"
  else match_.

(** Case 1, [/\b[a-zA-Z][a-zA-Z0-9_]*\b/g]: at a word start, a letter and
    the whole run of word characters after it (the closing [\b] forces the
    greedy star to its end). *)
Definition identifier : rewriter :=
  fun prev s =>
    match s with
    | c :: _ =>
        if atWordStart prev && isLetter c
        then let tok := takeWhile isWord s in
             Some (length tok, classify tok)
        else None
    | [] => None
    end.

Definition jsonLoadsOn : text := str "json.loads on ".

(** Case 2: group 1 is [json\.loads on ], group 2 is [[A-Z][A-Z0-9_]*];
    the match is replaced by ['$1{ENV_VAR}']. *)
Definition envVar : rewriter :=
  fun _ s =>
    if startsWith jsonLoadsOn s then
      match skipn (length jsonLoadsOn) s with
      | c :: r =>
          if isUpper c
          then Some (length jsonLoadsOn + S (length (takeWhile isUpperWord r)),
                     jsonLoadsOn ++ str "{ENV_VAR}")
          else None
      | [] => None
      end
    else None.

(** Case 3: group 1 is [\.\s*], group 2 is [[a-zA-Z][a-zA-Z0-9_]*] and
    group 3 is [\s*\(]; every match is replaced by ['$1{method}$3'].  Each
    greedy star is followed by a character outside its class, so only the
    longest runs can match. *)
Definition methodCall : rewriter :=
  fun _ s =>
    match s with
    | dot :: r =>
        if Ascii.eqb dot "."%char then
          let ws1 := takeWhile isSpace r in
          match dropWhile isSpace r with
          | c :: r1 =>
              if isLetter c then
                let name := c :: takeWhile isWord r1 in
                let r2 := dropWhile isWord r1 in
                let ws2 := takeWhile isSpace r2 in
                match dropWhile isSpace r2 with
                | p :: _ =>
                    if Ascii.eqb p "("%char
                    then Some (S (length ws1 + length name + length ws2 + 1),
                               dot :: ws1 ++ str "{method}" ++ ws2 ++ [p])
                    else None
                | [] => None
                end
              else None
          | [] => None
          end
        else None
    | [] => None
    end.

Definition replaceIdentifiers (s : text) : text := replaceAll identifier s.
Definition replaceEnvVar (s : text) : text := replaceFirst envVar s.
Definition replaceMethodCalls (s : text) : text := replaceAll methodCall s.

Definition extractCommentTemplate (comment : text) : text :=
  let template := comment in
  let template := replaceIdentifiers template in
  let template := replaceEnvVar template in
  let template := replaceMethodCalls template in
  template.

End Template.

(** ** Keyword sets: [extractKeywordsFromComment] *)

Module Keywords.

Import Char JS Regex.

Definition codeRelatedTerms : list text := map str
  [ "async"; "await"; "sync"; "function"; "method"; "class"; "object";
    "variable"; "const"; "let"; "var"; "import"; "export"; "return";
    "parameter"; "argument"; "callback"; "promise"; "error"; "exception";
    "null"; "undefined"; "boolean"; "string"; "number"; "array"; "json";
    "memory"; "leak"; "performance"; "security"; "vulnerability";
    "injection"; "validation"; "sanitize"; "request"; "response"; "api";
    "database"; "query"; "sql"; "http"; "token"; "authentication";
    "authorization"; "upload"; "download"; "file"; "stream"; "buffer";
    "parse"; "serialize" ]%string.

Definition isCodeRelatedTerm (word : text) : bool :=
  arrayIncludes codeRelatedTerms word
  || includes (str "error") word
  || includes (str "bug") word
  || includes (str "fix") word
  || includes (str "issue") word.

Definition isBacktick (c : ascii) : bool := Ascii.eqb c "`"%char.

(** [`[^`]+`] *)
Definition backticked : recognizer :=
  fun _ s =>
    match s with
    | c :: r =>
        if isBacktick c then
          match takeWhile (fun x => negb (isBacktick x)) r,
                dropWhile (fun x => negb (isBacktick x)) r with
          | (_ :: _) as inner, _ :: _ => Some (S (length inner + 1))
          | _, _ => None
          end
        else None
    | [] => None
    end.

(** [\b[a-zA-Z0-9_]+\(\)] *)
Definition callExpression : recognizer :=
  fun prev s =>
    match s with
    | c :: _ =>
        if atWordStart prev && isWord c then
          if startsWith (str "()") (dropWhile isWord s)
          then Some (length (takeWhile isWord s) + 2)
          else None
        else None
    | [] => None
    end.

(** [\b[A-Z][a-zA-Z0-9_]+] *)
Definition capitalized : recognizer :=
  fun prev s =>
    match s with
    | c :: r =>
        if atWordStart prev && isUpper c then
          match takeWhile isWord r with
          | [] => None
          | run => Some (S (length run))
          end
        else None
    | [] => None
    end.

(** [[a-z][a-zA-Z0-9_]+\.[a-z][a-zA-Z0-9_]+]; no [\b]: the match may
    start inside a run of word characters. *)
Definition dottedMember : recognizer :=
  fun _ s =>
    match s with
    | c :: r =>
        if isLower c then
          match takeWhile isWord r, dropWhile isWord r with
          | (_ :: _) as run1, dot :: d :: r2 =>
              if Ascii.eqb dot "."%char && isLower d then
                match takeWhile isWord r2 with
                | [] => None
                | run2 => Some (S (length run1) + 2 + length run2)
                end
              else None
          | _, _ => None
          end
        else None
    | [] => None
    end.

Definition codeElement : recognizer :=
  orElse backticked (orElse callExpression (orElse capitalized dottedMember)).

(** [[...new Set(l)]]: the first occurrence of each element, in order. *)
Fixpoint dedupeFrom (seen : list text) (l : list text) : list text :=
  match l with
  | [] => []
  | x :: r =>
      if arrayIncludes seen x then dedupeFrom seen r
      else x :: dedupeFrom (x :: seen) r
  end.

Definition dedupe (l : list text) : list text := dedupeFrom [] l.

(** [normalizedText.split(/\W+/).filter(w => w.length > 2)] *)
Definition words (commentText : text) : list text :=
  filter (fun w => 2 <? length w)
         (splitRegex (fun c => negb (isWord c)) (toLowerCase commentText)).

Definition codeElements (commentText : text) : list text :=
  map (fun s => toLowerCase (filter (fun c => negb (isBacktick c)) s))
      (matchAll codeElement commentText).

Definition technicalTerms (commentText : text) : list text :=
  filter isCodeRelatedTerm (words commentText).

Definition extractKeywordsFromComment (commentText : text) : list text :=
  dedupe (codeElements commentText ++ technicalTerms commentText).

Definition ratio (a b : nat) : Q :=
  (inject_Z (Z.of_nat a) / inject_Z (Z.of_nat b))%Q.

Definition calculateKeywordOverlap (keywords1 keywords2 : list text) : Q :=
  if (length keywords1 =? 0) || (length keywords2 =? 0) then 0%Q
  else
    let matchingKeywords := filter (arrayIncludes keywords2) keywords1 in
    let union := length (dedupe (keywords1 ++ keywords2)) in
    ratio (length matchingKeywords) union.

End Keywords.

(** ** Text similarity: [stringSimilarity] *)

Module Similarity.

Import Char JS Keywords.

(** [[.,\/#!$%\^&\*;:{}=\-_`~()]] *)
Definition isPunctuation (c : ascii) : bool :=
  existsb (Ascii.eqb c) (str ".,/#!$%^&*;:{}=-_`~()").

(** What [replace(/[...]/g, " ")] does to one character. *)
Definition blank (c : ascii) : ascii :=
  if isPunctuation c then " "%char else c.

Definition normalize (s : text) : text :=
  trim (map blank (toLowerCase s)).



(** Row [i] of the matrix [dp] from row [i-1]: [prev] holds
    [dp[i-1][j-1..n]], [left] is [dp[i][j-1]], [c] is [str1[i-1]] and the
    remaining characters of [str2] are [str2[j-1..]]. *)
Fixpoint fillRow (c : ascii) (str2 : text) (prev : list nat) (left : nat)
  : list nat :=
  match str2, prev with
  | d :: str2', diag :: (up :: _) as prev' =>
      let cost := if Ascii.eqb c d then 0 else 1 in
      let v := Nat.min (Nat.min (up + 1) (left + 1)) (diag + cost) in
      v :: fillRow c str2' prev' v
  | _, _ => []
  end.

(** Rows [1..m]: [i] is the index of the row being filled, whose first
    cell [dp[i][0]] is [i]. *)
Fixpoint fillRows (i : nat) (str1 str2 : text) (prev : list nat)
  : list nat :=
  match str1 with
  | [] => prev
  | c :: str1' => fillRows (S i) str1' str2 (i :: fillRow c str2 prev i)
  end.

(** [dp[m][n]], from row 0, which is [0, 1, ..., n]. *)
Definition levenshteinDistance (str1 str2 : text) : nat :=
  last (fillRows 1 str1 str2 (seq 0 (S (length str2)))) 0.

Definition wordBasedSimilarity (str1 str2 : text) : Q :=
  let words1 := filter (fun w => 2 <? length w) (splitRegex isSpace str1) in
  let words2 := filter (fun w => 2 <? length w) (splitRegex isSpace str2) in
  if (length words1 =? 0) || (length words2 =? 0) then 0%Q
  else
    let sharedWords := filter (arrayIncludes words2) words1 in
    ratio (2 * length sharedWords) (length words1 + length words2).

Definition stringSimilarity (str1 str2 : text) : Q :=
  let s1 := normalize str1 in
  let s2 := normalize str2 in
  if (20 <? Z.abs (Z.of_nat (length s1) - Z.of_nat (length s2)))%Z
  then wordBasedSimilarity s1 s2
  else
    let distance := levenshteinDistance s1 s2 in
    let maxLength := Nat.max (length s1) (length s2) in
    if maxLength =? 0 then 1%Q
    else (1 - ratio distance maxLength)%Q.

End Similarity.

(** ** Comment de-duplication: [isDuplicateComment] *)

Module Dedup.

Import JS Template Keywords Similarity.

(** The two fields of a comment object that [isDuplicateComment] reads. *)
Record comment : Type := mkComment
  { line : Z;
    body : text }.

(** [a > b] on scores. *)
Definition gt (a b : Q) : bool := negb (Qle_bool a b).

Definition lineDiff (newComment existingComment : comment) : Z :=
  Z.abs (line existingComment - line newComment).

(** The body of the loop for one existing comment that is near enough:
    [true] is [return true], [false] falls through to the next one. *)
Definition matches (newComment existingComment : comment) : bool :=
  let newCommentKeywords := extractKeywordsFromComment (body newComment) in
  let newCommentTemplate := extractCommentTemplate (body newComment) in
  let existingCommentTemplate :=
    extractCommentTemplate (body existingComment) in
  if text_eqb existingCommentTemplate newCommentTemplate then true
  else
    let existingCommentKeywords :=
      extractKeywordsFromComment (body existingComment) in
    let keywordOverlap :=
      calculateKeywordOverlap newCommentKeywords existingCommentKeywords in
    let textSimilarity :=
      stringSimilarity (body newComment) (body existingComment) in
    let templateSimilarity :=
      stringSimilarity newCommentTemplate existingCommentTemplate in
    gt keywordOverlap (1 # 2) || gt textSimilarity (3 # 5)
    || gt templateSimilarity (17 # 20).

(** [for (const existingComment of existingComments)] with its [continue]
    and its two [return true]. *)
Fixpoint scanExisting (newComment : comment) (lineProximity : Z)
  (existingComments : list comment) : bool :=
  match existingComments with
  | [] => false
  | existingComment :: rest =>
      if (lineProximity <? lineDiff newComment existingComment)%Z
      then scanExisting newComment lineProximity rest
      else if matches newComment existingComment then true
      else scanExisting newComment lineProximity rest
  end.

(** [lineProximity = 5] is a default parameter: [None] is a call without
    the third argument. *)
Definition proximityOf (lineProximity : option Z) : Z :=
  match lineProximity with
  | Some p => p
  | None => 5%Z
  end.

Definition isDuplicateComment (newComment : comment)
  (existingComments : list comment) (lineProximity : option Z) : bool :=
  let lineProximity := proximityOf lineProximity in
  scanExisting newComment lineProximity existingComments.

(** The decision for one existing comment, as the specification words
    it: near enough, and matching. *)
Definition nearMatch (newComment : comment) (p : Z) (e : comment) : bool :=
  (lineDiff newComment e <=? p)%Z && matches newComment e.

End Dedup.

(** ** Hunks of a diff, as the specification describes them

    The specification speaks of the hunks of a diff: a hunk starts at a
    valid hunk header, which gives its first line number in the new file,
    and runs up to the next valid header.  The definitions below follow
    these words; they are compared with [Diff.extractValidCommentLines]
    in the theorems. *)

Module Hunks.

Import JS Diff.

(** A valid hunk header and the [newStart] it announces, as the code
    reads it: the double nearest to the number written. *)
Definition headerStart (line : text) : option Z :=
  if startsWith (str "@@") line
  then option_map (fun g => toDouble (parseInt g)) (matchHeader line)
  else None.

Record hunk : Type := mkHunk
  { header : text;
    newStart : Z;
    lines : list text }.

(** The lines before the first valid header, and the hunks. *)
Fixpoint hunksOf (ls : list text) : list text * list hunk :=
  match ls with
  | [] => ([], [])
  | l :: rest =>
      let (pre, hs) := hunksOf rest in
      match headerStart l with
      | Some n => ([], mkHunk l n pre :: hs)
      | None => (l :: pre, hs)
      end
  end.

Definition preamble (ls : list text) : list text := fst (hunksOf ls).
Definition hunks (ls : list text) : list hunk := snd (hunksOf ls).

(** The lines of a list of hunks, in order. *)
Definition unparse (hs : list hunk) : list text :=
  flat_map (fun h => header h :: lines h) hs.

(** The new-file numbers of the added and context lines of a hunk body,
    counting from [n]. *)
Fixpoint numberFrom (n : Z) (body : list text) : list Z :=
  match body with
  | [] => []
  | l :: r =>
      if isCommentable l then n :: numberFrom (n + 1) r
      else numberFrom n r
  end.

Definition hunkLines (h : hunk) : list Z := numberFrom (newStart h) (lines h).

(** The numbers that the cursor of the code gives to the added and context
    lines of a hunk body when it starts at [n]. *)
Fixpoint cursorFrom (n : Z) (body : list text) : list Z :=
  match body with
  | [] => []
  | l :: r =>
      if isCommentable l then n :: cursorFrom (toDouble (n + 1)) r
      else cursorFrom n r
  end.

Definition cursorLines (h : hunk) : list Z :=
  cursorFrom (newStart h) (lines h).

(** How many added or context lines a body has before position [k]. *)
Definition commentableBefore (k : nat) (body : list text) : nat :=
  length (filter isCommentable (firstn k body)).

Definition wellFormed (h : hunk) : Prop :=
  headerStart (header h) = Some (newStart h)
  /\ Forall (fun l => headerStart l = None) (lines h).

(** A line that looks like a hunk header but does not match the pattern. *)
Definition isMalformedHeader (line : text) : bool :=
  startsWith (str "@@") line
  && match matchHeader line with
     | Some _ => false
     | None => true
     end.

Definition hasNoLF (line : text) : bool :=
  forallb (fun c => negb (Ascii.eqb c LF)) line.

End Hunks.

(** ** Hunks in file order

    In a diff produced by a diff tool the hunks come in the order of the
    file and do not overlap: each one starts at or after the line where the
    added and context lines of the previous one end. *)

Module HunkOrder.

Import JS Diff Hunks.

(** The number of added and context lines of a hunk. *)
Definition commentableCount (h : hunk) : nat :=
  length (filter isCommentable (lines h)).

(** The first new-file line after the hunk. *)
Definition hunkEnd (h : hunk) : Z :=
  (newStart h + Z.of_nat (commentableCount h))%Z.

(** The hunk ends at or below 2^53: the cursor counts its lines exactly. *)
Definition countsExactly (h : hunk) : bool := (hunkEnd h <=? maxExact)%Z.

Fixpoint hunksInOrder (hs : list hunk) : bool :=
  match hs with
  | h :: ((h' :: _) as rest) =>
      (hunkEnd h <=? newStart h')%Z && hunksInOrder rest
  | _ => true
  end.

End HunkOrder.

(** ** The edit distance by its recurrence

    The textbook definition of the Levenshtein distance, by recursion on
    the first characters of the two texts.  [Similarity.levenshteinDistance]
    fills its matrix from the prefixes of the two strings, that is, it
    follows this recurrence on the last characters; the theorems show that
    the two agree. *)

Module EditDistance.

Definition substCost (x y : ascii) : nat :=
  if Ascii.eqb x y then 0 else 1.

Fixpoint editDistance (a b : text) {struct a} : nat :=
  match a with
  | [] => length b
  | x :: a' =>
      (fix inner (b : text) : nat :=
         match b with
         | [] => length a
         | y :: b' =>
             Nat.min (Nat.min (editDistance a' b + 1) (inner b' + 1))
                     (editDistance a' b' + substCost x y)
         end) b
  end.

(** The distance between two prefixes, which is what the cell of the
    matrix for these prefixes holds. *)
Definition prefixDistance (p q : text) : nat :=
  editDistance (rev p) (rev q).

(** The prefixes [q], [q ++ t0], [q ++ t0 t1], ..., [q ++ t]: the columns
    of the matrix from the one of [q] on. *)
Fixpoint prefixesFrom (q t : text) : list text :=
  q :: match t with
       | [] => []
       | d :: t' => prefixesFrom (q ++ [d]) t'
       end.

End EditDistance.

(** ** The shape of keywords *)

Module KeywordShape.

Import Char Keywords.

(** Neither a capital letter A-Z nor a backtick. *)
Definition plainLower (c : ascii) : bool :=
  negb (isUpper c) && negb (isBacktick c).

End KeywordShape.

(** ** Identifiers inside a comment *)

Module Identifiers.

Import Char JS Regex.

(** A token of Case 1: a letter followed by word characters. *)
Definition isToken (t : text) : bool :=
  match t with
  | c :: r => isLetter c && forallb isWord r
  | [] => false
  end.

(** The text is empty or ends with a character that is not a word
    character: a token may start right after it. *)
Definition endsAtWordStart (a : text) : bool :=
  atWordStart (prevAfter None a).

Definition hasNoLetter (s : text) : bool :=
  forallb (fun c => negb (isLetter c)) s.

End Identifiers.

(** ** The diff of one file inside the diff of the pull request

    The fallback of [getDiff]: when the files API gives no patch, the diff
    of the whole pull request is split into lines and the section of the
    file is collected.  [collect] is the loop over [diffLines], with the
    flag [inTargetFile]; the empty result of the first case is the
    [break]. *)

Module FileDiff.

Import JS.

Definition isDiffHeader (line : text) : bool :=
  startsWith (str "diff --git") line.

(** [line.includes(`a/${filename}`) && line.includes(`b/${filename}`)] *)
Definition namesFile (filename line : text) : bool :=
  includes (str "a/" ++ filename) line && includes (str "b/" ++ filename) line.

Fixpoint collect (filename : text) (inTargetFile : bool)
  (diffLines : list text) : list text :=
  match diffLines with
  | [] => []
  | line :: rest =>
      if isDiffHeader line then
        if inTargetFile then []
        else if namesFile filename line
             then line :: collect filename true rest
             else collect filename false rest
      else if inTargetFile then line :: collect filename true rest
           else collect filename false rest
  end.

Definition targetFileDiff (diffData filename : text) : text :=
  join LF (collect filename false (split LF diffData)).

(** The header line that opens the section of the file. *)
Definition opensFile (filename line : text) : bool :=
  isDiffHeader line && namesFile filename line.

End FileDiff.

(** ** The comments that are posted for a file

    The part of [reviewFile] that decides what is posted, given what the
    outside world returned: the diff of the file, the existing comments and
    the comments of the model. *)

Module Review.

Import JS Diff Dedup.

(** [config.commentPrefix] is [None] when the key is absent; the empty
    string is falsy as well. *)
Definition formatComment (comment : text) (commentPrefix : option text)
  : text :=
  match commentPrefix with
  | Some (c :: p) => (c :: p) ++ str " " ++ comment
  | _ => comment
  end.

(** [validCommentLines.includes(comment.line)] *)
Definition isValidLine (validCommentLines : list Z) (line : Z) : bool :=
  existsb (Z.eqb line) validCommentLines.

Definition validComments (validCommentLines : list Z)
  (existingComments reviewComments : list comment) : list comment :=
  filter (fun comment =>
            if isValidLine validCommentLines (line comment)
            then negb (isDuplicateComment comment existingComments None)
            else false)
         reviewComments.

(** An element of [formattedComments]. *)
Record reviewComment : Type := mkReviewComment
  { path : text;
    rbody : text;
    rline : Z;
    side : text }.

Definition formattedComments (filename : text) (commentPrefix : option text)
  (comments : list comment) : list reviewComment :=
  map (fun c => mkReviewComment filename
                  (formatComment (body c) commentPrefix) (line c)
                  (str "RIGHT"))
      comments.

(** What [reviewFile] hands to [createBatchReviewComments]; the empty list
    stands for every path on which nothing is posted: the early returns,
    and the error for a diff of more than 1000 lines, which the [catch] of
    [reviewFile] logs and drops. *)
Definition commentsToPost (status : text) (binary : bool) (diff : text)
  (filename : text) (commentPrefix : option text)
  (existingComments reviewComments : list comment) : list reviewComment :=
  if text_eqb status (str "removed") || binary then []
  else if text_eqb (trim diff) [] then []
  else if 1000 <? length (split LF diff) then []
  else
    let validCommentLines := extractValidCommentLines diff in
    if length validCommentLines =? 0 then []
    else formattedComments filename commentPrefix
           (validComments validCommentLines existingComments reviewComments).

End Review.

(** ** Configuration: [mergeConfigs] in [src/utils/config.js]

    Configuration values are what [JSON.parse] or a configuration module
    gives: [undefined], [null], booleans, numbers, strings, arrays and
    plain objects.  An object is modelled by the list of the bindings
    written to it, the last binding of a key being its value; the order in
    which [for ... in] visits the keys is not modelled, and the theorems
    speak of lookups only.  Keys are the names of settings: the names of
    the members of the built-in prototypes ([constructor], [toString],
    [__proto__], [length], ...) are outside the model. *)

Module Config.

Import JS.

#[warnings="-register-all"]
Inductive value : Type :=
| Undefined
| Null
| Bool (b : bool)
| Num (q : Q)
| Str (s : text)
| Arr (items : list value)
| Obj (entries : list (text * value)).

Definition object := list (text * value).

(** [o[key]]: the last binding of the key, [None] for [undefined]. *)
Fixpoint get (key : text) (o : object) : option value :=
  match o with
  | [] => None
  | (k, v) :: rest =>
      match get key rest with
      | Some w => Some w
      | None => if text_eqb k key then Some v else None
      end
  end.

(** [o[key] = v] *)
Definition set (key : text) (v : value) (o : object) : object :=
  o ++ [(key, v)].

(** The key of the element [i] of an array or of a string: ["0"], ["1"],
    ... *)
Definition indexKey (i : nat) : text :=
  str (NilZero.string_of_uint (Nat.to_uint i)).

Fixpoint indexed {A : Type} (i : nat) (l : list A) : list (text * A) :=
  match l with
  | [] => []
  | x :: r => (indexKey i, x) :: indexed (S i) r
  end.

(** The own enumerable properties of a value: what [{ ...v }] copies and
    what [for (const key in v)] with [hasOwnProperty] visits.  An array has
    its elements, a string its characters, the other primitives nothing. *)
Definition ownEntries (v : value) : object :=
  match v with
  | Obj o => o
  | Arr l => indexed 0 l
  | Str s => indexed 0 (map (fun c => Str [c]) s)
  | _ => []
  end.

(** [v[key]] *)
Definition getProp (v : value) (key : text) : option value :=
  get key (ownEntries v).

Definition truthy (v : value) : bool :=
  match v with
  | Undefined | Null => false
  | Bool b => b
  | Num q => negb (Qeq_bool q 0)
  | Str s => match s with [] => false | _ :: _ => true end
  | Arr _ | Obj _ => true
  end.

(** [target[key] || {}] *)
Definition orEmptyObject (o : option value) : value :=
  match o with
  | Some v => if truthy v then v else Obj []
  | None => Obj []
  end.

(** [v !== null && typeof v === 'object' && !Array.isArray(v)] *)
Definition isPlainObject (v : value) : bool :=
  match v with
  | Obj _ => true
  | _ => false
  end.

(** The loop over the keys of [source] is written once for each kind of
    source that has keys, so that the recursion goes through the values
    that the source holds. *)
Fixpoint mergeConfigs (target source : value) {struct source} : value :=
  match source with
  | Obj o =>
      Obj ((fix loop (es : object) (merged : object) : object :=
              match es with
              | [] => merged
              | (key, v) :: rest =>
                  loop rest
                    (set key
                       match v with
                       | Obj _ =>
                           mergeConfigs (orEmptyObject (getProp target key)) v
                       | _ => v
                       end merged)
              end) o (ownEntries target))
  | Arr l =>
      Obj ((fix loop (i : nat) (vs : list value) (merged : object) : object :=
              match vs with
              | [] => merged
              | v :: rest =>
                  loop (S i) rest
                    (set (indexKey i)
                       match v with
                       | Obj _ =>
                           mergeConfigs
                             (orEmptyObject (getProp target (indexKey i))) v
                       | _ => v
                       end merged)
              end) 0 l (ownEntries target))
  | Str s =>
      Obj (fold_left (fun merged e => set (fst e) (snd e) merged)
                     (ownEntries (Str s)) (ownEntries target))
  | _ => Obj (ownEntries target)
  end.

(** One iteration of the loop of [mergeConfigs]. *)
Definition assign (target : value) (merged : object) (e : text * value)
  : object :=
  set (fst e)
      (if isPlainObject (snd e)
       then mergeConfigs (orEmptyObject (getProp target (fst e))) (snd e)
       else snd e)
      merged.

(** [v.k1.k2...], [None] when a key is missing on the way. *)
Fixpoint getPath (p : list text) (v : value) : option value :=
  match p with
  | [] => Some v
  | key :: p' =>
      match getProp v key with
      | Some u => getPath p' u
      | None => None
      end
  end.

(** The source says nothing about the setting at the path: some key on the
    way is missing in the source, and the values before it are plain
    objects. *)
Fixpoint untouched (p : list text) (source : value) : bool :=
  match p with
  | [] => false
  | key :: p' =>
      match getProp source key with
      | None => true
      | Some u => isPlainObject u && untouched p' u
      end
  end.

End Config.

(** ** Comments read from a plain-text response:
       [extractCommentsFromText] of the Anthropic and Azure adapters

    When the response of the model is not JSON, the two adapters read the
    comments with the pattern [line], colons or white space, digits, colons
    or white space, and the rest of the line, under the flags [g] and [i].
    Each part of the pattern is greedy and the next part cannot start with
    a character of the class before it, so only the longest runs match. *)

Module ResponseText.

Import Char JS Dedup.

(** The class of colons and white space. *)
Definition isSeparator (c : ascii) : bool := (code c =? 58)%N || isSpace c.

(** The dot of a pattern matches every character but a line terminator: LF
    and CR (the other two, U+2028 and U+2029, are not 8-bit characters). *)
Definition isLineTerminator (c : ascii) : bool :=
  (code c =? 10)%N || (code c =? 13)%N.

Definition inLine (c : ascii) : bool := negb (isLineTerminator c).

(** A literal of lower-case ASCII letters under the [i] flag. *)
Fixpoint startsWithIgnoreCase (p s : text) : bool :=
  match p, s with
  | [], _ => true
  | a :: p', b :: s' =>
      Ascii.eqb a (if isUpper b then toLower b else b)
      && startsWithIgnoreCase p' s'
  | _ :: _, [] => false
  end.

(** One match of the pattern at the start of [s]: its length and the
    comment that the loop pushes. *)
Definition lineRegex (s : text) : option (nat * comment) :=
  if startsWithIgnoreCase (str "line") s then
    let s1 := skipn 4 s in
    match takeWhile isSeparator s1 with
    | [] => None
    | (_ :: _) as sep1 =>
        let s2 := dropWhile isSeparator s1 in
        match takeWhile isDigit s2 with
        | [] => None
        | (_ :: _) as digits =>
            let s3 := dropWhile isDigit s2 in
            match takeWhile isSeparator s3 with
            | [] => None
            | (_ :: _) as sep2 =>
                let rest := takeWhile inLine (dropWhile isSeparator s3) in
                Some (4 + length sep1 + length digits + length sep2
                      + length rest,
                      mkComment (toDouble (parseInt digits)) (trim rest))
            end
        end
    end
  else None.

(** The [exec] loop: the next search starts where the last match ended;
    [skip] counts the characters of that match still to be passed. *)
Fixpoint commentsFrom (skip : nat) (s : text) : list comment :=
  match s with
  | [] => []
  | _ :: r =>
      match skip with
      | S k => commentsFrom k r
      | O =>
          match lineRegex s with
          | Some (len, c) => c :: commentsFrom (pred len) r
          | None => commentsFrom 0 r
          end
      end
  end.

Definition extractCommentsFromText (t : text) : list comment :=
  commentsFrom 0 t.

(** A line of a response that the pattern reads back: the word, a space,
    the digits, a colon, a space and the body. *)
Definition render (e : text * text) : text :=
  str "line " ++ fst e ++ str ": " ++ snd e.

(** The digits are decimal digits, at least one; the body is not empty,
    stays on one line, starts with neither a colon nor white space and
    does not end with white space; the number is below 2^53, where
    [parseInt] is exact. *)
Definition wellFormed (e : text * text) : bool :=
  match fst e with
  | [] => false
  | _ :: _ => forallb isDigit (fst e)
  end
  && match snd e with
     | [] => false
     | c :: _ => negb (isSeparator c)
     end
  && forallb inLine (snd e)
  && text_eqb (trim (snd e)) (snd e)
  && (parseInt (fst e) <? 9007199254740992)%Z.

(** The text is empty or starts with a character outside the class. *)
Definition stopsAt (f : ascii -> bool) (s : text) : bool :=
  match s with
  | [] => true
  | c :: _ => negb (f c)
  end.

End ResponseText.

(** ** The order of the comments of the OpenAI adapter: the sort by
       severity in [reviewCode]

    The severity of a comment, when it is there, is a string. *)

Module Severity.

Import JS.

(** What [severityOrder[key]] gives for a lower-cased key: the number of
    one of the three own members, [undefined], or a member inherited from
    [Object.prototype].  Of the inherited names only [constructor] and
    [__proto__] are written without a capital letter. *)
Inductive member : Type :=
| Number (n : Z)
| Missing
| Inherited.

Definition severityOrder (key : text) : member :=
  if text_eqb key (str "high") then Number 0
  else if text_eqb key (str "medium") then Number 1
  else if text_eqb key (str "low") then Number 2
  else if text_eqb key (str "constructor") then Inherited
  else if text_eqb key (str "__proto__") then Inherited
  else Missing.

(** [m || 3]: zero and [undefined] are falsy; an inherited member is an
    object and stays, and is not a number. *)
Definition orThree (m : member) : option Z :=
  match m with
  | Number n => if (n =? 0)%Z then Some 3%Z else Some n
  | Missing => Some 3%Z
  | Inherited => None
  end.

(** [a.severity ? severityOrder[a.severity.toLowerCase()] || 3 : 3] for a
    severity that is a string when it is there; [None] and the empty
    string are the falsy cases. *)
Definition rank (severity : option text) : option Z :=
  match severity with
  | Some ((_ :: _) as s) => orThree (severityOrder (toLowerCase s))
  | _ => Some 3%Z
  end.

(** [aSeverity - bSeverity]; [None] is [NaN]. *)
Definition compare (a b : option text) : option Z :=
  match rank a, rank b with
  | Some x, Some y => Some (x - y)%Z
  | _, _ => None
  end.

Section Sort.

Variable A : Type.
Variable severity : A -> option text.

(** The sort leaves [a] before [b] unless the comparator gives a positive
    number; [NaN] counts as zero. *)
Definition inOrder (a b : A) : bool :=
  match compare (severity a) (severity b) with
  | Some v => (v <=? 0)%Z
  | None => true
  end.

Fixpoint insert (a : A) (l : list A) : list A :=
  match l with
  | [] => [a]
  | b :: r => if inOrder a b then a :: l else b :: insert a r
  end.

(** [reviewComments.sort(...)]: the sort of an array is stable, so for a
    comparator that compares ranks its result is the one of insertion
    from the right. *)
Fixpoint sortBySeverity (l : list A) : list A :=
  match l with
  | [] => []
  | a :: r => insert a (sortBySeverity r)
  end.

(** The severity of the comment, lower-cased, is the given word. *)
Definition hasSeverity (w : string) (a : A) : bool :=
  match severity a with
  | Some s => text_eqb (toLowerCase s) (str w)
  | None => false
  end.

(** The severity, lower-cased, is the name of an inherited member. *)
Definition hasInherited (a : A) : bool :=
  hasSeverity "constructor" a || hasSeverity "__proto__" a.

Definition isMedium : A -> bool := hasSeverity "medium".
Definition isLow : A -> bool := hasSeverity "low".
(** Every other comment: severity [high], an unknown severity or none. *)
Definition isOther (a : A) : bool := negb (isMedium a) && negb (isLow a).

End Sort.

Arguments inOrder {A} severity a b.
Arguments insert {A} severity a l.
Arguments sortBySeverity {A} severity l.
Arguments hasSeverity {A} severity w a.
Arguments hasInherited {A} severity a.
Arguments isMedium {A} severity a.
Arguments isLow {A} severity a.
Arguments isOther {A} severity a.

End Severity.

(** * Properties *)

Import Char JS Regex Diff Hunks HunkOrder Template Keywords Similarity Dedup.

(** ** Worked examples

    The scanners on inputs that exercise the corners of the patterns. *)

(** The header pattern is not anchored: it is found inside the line. *)
Example header_found_inside_line :
  headerStart (str "@@ x @@ -1,2 +7,3 @@ foo") = Some 7%Z
  /\ headerStart (str "@@ -1, +2 @@") = None
  /\ headerStart (str " @@ -1 +2 @@") = None.
Proof. repeat split; vm_compute; reflexivity. Qed.

Example template_of_unused_variable :
  extractCommentTemplate (str "Unused variable `fooBar` should be removed.")
  = str "{Class} {var} `{var}` should {var} {var}.".
Proof. vm_compute. reflexivity. Qed.

(** A match of the dotted-member alternative may start inside a word. *)
Example code_elements_of_text :
  codeElements (str "1ab.cd Xab.cd ab.cd() `a b` x() A Ab")
  = map str ["ab.cd"; "xab"; "ab.cd"; "a b"; "x()"; "ab"]%string.
Proof. vm_compute. reflexivity. Qed.

Example keywords_of_text :
  extractKeywordsFromComment
    (str "The `fooBar` call in MyClass has a bug; debugging errors")
  = map str ["the"; "foobar"; "myclass"; "bug"; "debugging"; "errors"]%string.
Proof. vm_compute. reflexivity. Qed.

Example normalize_text :
  normalize (str "  Hello, World_(x)!  ") = str "hello  world  x".
Proof. vm_compute. reflexivity. Qed.

Example levenshtein_kitten_sitting :
  levenshteinDistance (str "kitten") (str "sitting") = 3
  /\ levenshteinDistance (str "flaw") (str "lawn") = 2.
Proof. split; vm_compute; reflexivity. Qed.

Example similarity_three_fifths :
  stringSimilarity (str "abcde") (str "abcxy") = (3 # 5)%Q.
Proof. vm_compute. reflexivity. Qed.

(** ** Numbers *)

Section DoubleFacts.

Local Open Scope Z_scope.

(** Up to 2^53 every integer is a double. *)
Lemma toDouble_exact (z : Z) : z <= maxExact -> toDouble z = z.
Proof.
  intros H. unfold toDouble. destruct (z <? maxExact) eqn:E; [reflexivity|].
  apply Z.ltb_ge in E. assert (z = maxExact) by lia. subst z.
  vm_compute. reflexivity.
Qed.

Lemma infinity_form : infinity = 2 ^ 52 * 2 ^ 972.
Proof. unfold infinity. rewrite <- Z.pow_add_r by lia. reflexivity. Qed.

(** The exponent and the significand of a number from 2^53 on. *)
Lemma significand_range (z : Z) :
  maxExact <= z ->
  let e := Z.log2 z - 52 in
  1 <= e /\ 2 ^ 52 <= z / 2 ^ e < 2 ^ 53.
Proof.
  intros H e.
  assert (Hz : 0 < z) by (unfold maxExact in H; lia).
  pose proof (Z.log2_spec z Hz) as [Hlo Hhi].
  assert (HL : 53 <= Z.log2 z).
  { apply Z.log2_le_pow2; [assumption|]. exact H. }
  assert (He : 1 <= e) by (unfold e; lia).
  assert (Hp : 0 < 2 ^ e) by (apply Z.pow_pos_nonneg; lia).
  assert (E1 : 2 ^ Z.log2 z = 2 ^ 52 * 2 ^ e).
  { rewrite <- Z.pow_add_r by lia. f_equal. unfold e. lia. }
  assert (E2 : 2 ^ Z.succ (Z.log2 z) = 2 ^ 53 * 2 ^ e).
  { rewrite <- Z.pow_add_r by lia. f_equal. unfold e. lia. }
  split; [assumption|]. split.
  - apply Z.div_le_lower_bound; [assumption|]. rewrite Z.mul_comm. lia.
  - apply Z.div_lt_upper_bound; [assumption|]. rewrite Z.mul_comm. lia.
Qed.

(** From 2^53 on a double is a significand of 53 bits times a power of
    two, and it is not beyond the number that stands for [Infinity]. *)
Lemma toDouble_form (z : Z) :
  maxExact <= z ->
  exists q e, 2 ^ 52 <= q < 2 ^ 53 /\ 1 <= e /\ toDouble z = q * 2 ^ e
              /\ toDouble z <= infinity.
Proof.
  intros H. destruct (significand_range z H) as [He Hq].
  unfold toDouble. destruct (z <? maxExact) eqn:E;
    [apply Z.ltb_lt in E; lia|]. cbv zeta.
  set (e := Z.log2 z - 52) in *. set (q := z / 2 ^ e) in *.
  set (r := z mod 2 ^ e). clearbody r q e.
  set (q' := if r <? 2 ^ (e - 1) then q
             else if 2 ^ (e - 1) <? r then q + 1
             else if Z.even q then q else q + 1).
  assert (Hq' : 2 ^ 52 <= q' <= 2 ^ 53).
  { unfold q'. destruct (r <? _); [lia|]. destruct (_ <? r); [lia|].
    destruct (Z.even q); lia. }
  clearbody q'.
  destruct (Z.min_spec (q' * 2 ^ e) infinity) as [[L ->]|[L ->]].
  - destruct (Z.eq_dec q' (2 ^ 53)) as [Q|Q].
    + exists (2 ^ 52), (e + 1). repeat split; try lia.
      rewrite Q, Z.pow_add_r by lia. change (2 ^ 53) with (2 ^ 52 * 2 ^ 1).
      ring.
    + exists q', e. repeat split; lia.
  - exists (2 ^ 52), 972. repeat split; try lia; apply infinity_form.
Qed.

(** Adding one to a double never gives a smaller number: the cursor never
    goes back. *)
Lemma toDouble_succ (m : Z) : toDouble m <= toDouble (toDouble m + 1).
Proof.
  destruct (Z_lt_le_dec m maxExact) as [L|L].
  - rewrite (toDouble_exact m) by lia. rewrite toDouble_exact by lia. lia.
  - destruct (toDouble_form m L) as (q & e & Hq & He & -> & Hinf).
    set (n := q * 2 ^ e) in *.
    assert (Hp : 2 <= 2 ^ e).
    { change 2 with (2 ^ 1) at 1. apply Z.pow_le_mono_r; lia. }
    assert (Hn : maxExact <= n + 1).
    { unfold n, maxExact. change 9007199254740992 with (2 ^ 52 * 2). nia. }
    assert (Hlog : Z.log2 (n + 1) = 52 + e).
    { apply Z.log2_unique; [lia|]. split.
      - rewrite Z.pow_add_r by lia. unfold n. nia.
      - replace (Z.succ (52 + e)) with (53 + e) by lia.
        rewrite Z.pow_add_r by lia. unfold n. nia. }
    assert (Hdiv : (n + 1) / 2 ^ e = q).
    { symmetry. apply Z.div_unique with 1; [left; lia|]. unfold n. ring. }
    unfold toDouble at 1. destruct (n + 1 <? maxExact) eqn:E;
      [apply Z.ltb_lt in E; lia|]. cbv zeta.
    replace (Z.log2 (n + 1) - 52) with e by lia. rewrite Hdiv.
    apply Z.min_glb; [|assumption].
    set (c := (n + 1) mod 2 ^ e <? 2 ^ (e - 1)).
    set (d := 2 ^ (e - 1) <? (n + 1) mod 2 ^ e).
    clearbody c d. clear Hdiv Hlog E Hn Hinf. unfold n. clear n.
    set (p := 2 ^ e) in *. clearbody p.
    destruct c; [lia|]. destruct d; [nia|]. destruct (Z.even q); nia.
Qed.

Lemma toDouble_nonneg (z : Z) : 0 <= z -> 0 <= toDouble z.
Proof.
  intros H. destruct (Z_lt_le_dec z maxExact) as [L|L].
  - rewrite toDouble_exact by lia. assumption.
  - destruct (toDouble_form z L) as (q & e & Hq & He & -> & _).
    assert (0 < 2 ^ e) by (apply Z.pow_pos_nonneg; lia).
    assert (0 < 2 ^ 52) by (apply Z.pow_pos_nonneg; lia). nia.
Qed.

End DoubleFacts.

(** ** The diff line mapper *)

Section DiffFacts.

Lemma extractValidCommentLines_scan (diff : text) :
  extractValidCommentLines diff = validLines (scanLines (split LF diff)).
Proof. destruct diff; reflexivity. Qed.

Lemma commentable_not_header (l : text) :
  isCommentable l = true -> startsWith (str "@@") l = false.
Proof.
  unfold isCommentable.
  change (str "+") with ["+"%char]. change (str " ") with [" "%char].
  change (str "@@") with ["@"%char; "@"%char].
  destruct l as [|c l]; [discriminate|].
  cbn [startsWith]. rewrite !andb_true_r. intros H.
  destruct (Ascii.eqb "@" c) eqn:E; [|reflexivity].
  apply Ascii.eqb_eq in E. subst c. vm_compute in H. discriminate.
Qed.

Lemma step_header st l n :
  headerStart l = Some n -> step st l = mkScan (validLines st) (Some n).
Proof.
  unfold headerStart, step.
  destruct (startsWith (str "@@") l); [|discriminate].
  destruct (matchHeader l); simpl; congruence.
Qed.

Lemma step_other_unset v l :
  headerStart l = None -> step (mkScan v None) l = mkScan v None.
Proof.
  unfold headerStart, step.
  destruct (startsWith (str "@@") l); [|reflexivity].
  destruct (matchHeader l); simpl; [discriminate|reflexivity].
Qed.

Lemma step_other_set v n l :
  headerStart l = None ->
  step (mkScan v (Some n)) l =
  if isCommentable l then mkScan (v ++ [n]) (Some (toDouble (n + 1)))
  else mkScan v (Some n).
Proof.
  unfold headerStart, step.
  destruct (startsWith (str "@@") l) eqn:E; [|reflexivity].
  destruct (matchHeader l); simpl; [discriminate|]. intros _.
  destruct (isCommentable l) eqn:C; [|reflexivity].
  apply commentable_not_header in C. congruence.
Qed.

Lemma step_malformed st l :
  isMalformedHeader l = true -> step st l = st.
Proof.
  unfold isMalformedHeader, step.
  destruct (startsWith (str "@@") l); [|discriminate].
  destruct (matchHeader l); [discriminate|reflexivity].
Qed.

Lemma fold_preamble pre : forall v,
  Forall (fun l => headerStart l = None) pre ->
  fold_left step pre (mkScan v None) = mkScan v None.
Proof.
  induction pre as [|l pre IH]; intros v H; [reflexivity|].
  inversion H; subst. simpl. rewrite step_other_unset by assumption. auto.
Qed.

(** Over the body of a hunk the loop records the numbers of the cursor. *)
Lemma fold_body body : forall v n,
  Forall (fun l => headerStart l = None) body ->
  exists cur,
    fold_left step body (mkScan v (Some n))
    = mkScan (v ++ cursorFrom n body) cur.
Proof.
  induction body as [|l body IH]; intros v n H.
  - exists (Some n). simpl. now rewrite app_nil_r.
  - inversion H as [|? ? Hl Hb]; subst. simpl fold_left.
    rewrite step_other_set by assumption.
    simpl. destruct (isCommentable l).
    + destruct (IH (v ++ [n]) (toDouble (n + 1)) Hb) as [cur E].
      exists cur. rewrite E, <- app_assoc. reflexivity.
    + apply IH; assumption.
Qed.

Lemma fold_hunks hs : forall v cur,
  Forall wellFormed hs ->
  validLines (fold_left step (unparse hs) (mkScan v cur)) =
  v ++ concat (map cursorLines hs).
Proof.
  induction hs as [|h hs IH]; intros v cur H.
  - simpl. now rewrite app_nil_r.
  - inversion H as [|? ? [Hh Hb] Hrest]; subst.
    unfold unparse in *. simpl flat_map. simpl fold_left.
    rewrite fold_left_app. rewrite (step_header _ _ _ Hh). simpl validLines.
    destruct (fold_body (lines h) v (newStart h) Hb) as [c E]. rewrite E.
    rewrite IH by assumption.
    simpl. rewrite app_assoc. reflexivity.
Qed.

Lemma hunksOf_spec ls :
  ls = preamble ls ++ unparse (hunks ls)
  /\ Forall (fun l => headerStart l = None) (preamble ls)
  /\ Forall wellFormed (hunks ls).
Proof.
  unfold preamble, hunks.
  induction ls as [|l ls (Heq & Hpre & Hwf)]; simpl.
  - repeat split; constructor.
  - destruct (hunksOf ls) as [pre hs]. simpl in *.
    destruct (headerStart l) eqn:E; simpl.
    + repeat split; try constructor; try assumption.
      * now rewrite <- Heq.
      * split; assumption.
    + repeat split; try constructor; try assumption.
      now rewrite <- Heq.
Qed.

Lemma scanLines_hunks ls :
  validLines (scanLines ls) = concat (map cursorLines (hunks ls)).
Proof.
  destruct (hunksOf_spec ls) as (Heq & Hpre & Hwf).
  rewrite Heq at 1. unfold scanLines, init.
  rewrite fold_left_app, fold_preamble by assumption.
  now rewrite fold_hunks.
Qed.

(** The cursor gives one number to each added or context line. *)
Lemma cursorFrom_length body : forall n,
  length (cursorFrom n body) = length (filter isCommentable body).
Proof.
  induction body as [|l body IH]; intros n; [reflexivity|].
  simpl. destruct (isCommentable l); simpl; now rewrite IH.
Qed.

Lemma cursorFrom_nil_iff (body : list text) (n : Z) :
  cursorFrom n body = [] <-> forall l, In l body -> isCommentable l = false.
Proof.
  revert n. induction body as [|l body IH]; intros n; simpl.
  - split; [intros _ l []|reflexivity].
  - destruct (isCommentable l) eqn:E.
    + split; [discriminate|]. intros H. specialize (H l (or_introl eq_refl)).
      congruence.
    + rewrite IH. split.
      * intros H l' [<-|Hl']; auto.
      * intros H l' Hl'. apply H. now right.
Qed.

(** A number of the cursor is the number of an added or context line:
    the entry at the position of that line among the added and context
    lines of the body. *)
Lemma cursorFrom_line body : forall n x,
  In x (cursorFrom n body) ->
  exists k l, nth_error body k = Some l /\ isCommentable l = true
              /\ nth_error (cursorFrom n body) (commentableBefore k body)
                 = Some x.
Proof.
  unfold commentableBefore.
  induction body as [|l body IH]; intros n x; simpl; [tauto|].
  destruct (isCommentable l) eqn:C.
  - intros [<-|H].
    + exists 0, l. simpl. repeat split; auto.
    + apply IH in H. destruct H as (k & l' & Hk & Hc & Hx).
      exists (S k), l'. simpl. rewrite C. simpl. repeat split; auto.
  - intros H. apply IH in H. destruct H as (k & l' & Hk & Hc & Hx).
    exists (S k), l'. simpl. rewrite C. repeat split; auto.
Qed.

(** The cursor starts at a double and never goes back. *)
Lemma headerStart_double (l : text) (n : Z) :
  headerStart l = Some n -> exists m, n = toDouble m.
Proof.
  unfold headerStart. destruct (startsWith (str "@@") l); [|discriminate].
  destruct (matchHeader l) as [g|]; simpl; [|discriminate].
  intros E. injection E as <-. eauto.
Qed.

Lemma cursorFrom_lower body : forall m x,
  In x (cursorFrom (toDouble m) body) -> (toDouble m <= x)%Z.
Proof.
  induction body as [|l body IH]; intros m x; simpl; [tauto|].
  destruct (isCommentable l); [|apply IH].
  intros [<-|H]; [lia|]. apply IH in H.
  pose proof (toDouble_succ m). lia.
Qed.

Lemma cursorFrom_sorted body : forall m,
  StronglySorted Z.le (cursorFrom (toDouble m) body).
Proof.
  induction body as [|l body IH]; intros m; simpl; [constructor|].
  destruct (isCommentable l); [|apply IH].
  constructor; [apply IH|]. apply Forall_forall. intros x Hx.
  apply cursorFrom_lower in Hx. pose proof (toDouble_succ m). lia.
Qed.

(** While the numbers stay at or below 2^53 the cursor counts the lines. *)
Lemma cursorFrom_exact body : forall n,
  (n + Z.of_nat (length (filter isCommentable body)) <= maxExact)%Z ->
  cursorFrom n body = numberFrom n body.
Proof.
  induction body as [|l body IH]; intros n H; [reflexivity|].
  simpl in *. destruct (isCommentable l); [|auto].
  simpl length in H. rewrite toDouble_exact by lia. f_equal. apply IH. lia.
Qed.

Lemma cursorLines_exact (h : hunk) :
  countsExactly h = true -> cursorLines h = hunkLines h.
Proof.
  unfold countsExactly, hunkEnd, commentableCount, cursorLines, hunkLines.
  intros H. apply Z.leb_le in H. now apply cursorFrom_exact.
Qed.

Lemma scanLines_hunks_exact ls :
  forallb countsExactly (hunks ls) = true ->
  validLines (scanLines ls) = concat (map hunkLines (hunks ls)).
Proof.
  intros H. rewrite scanLines_hunks. f_equal. apply map_ext_in.
  intros h Hh. apply cursorLines_exact.
  rewrite forallb_forall in H. auto.
Qed.

Lemma numberFrom_seq body : forall n,
  numberFrom n body =
  map (fun k => (n + Z.of_nat k)%Z)
      (seq 0 (length (filter isCommentable body))).
Proof.
  induction body as [|l body IH]; intros n; [reflexivity|].
  simpl. destruct (isCommentable l); [|apply IH].
  simpl. rewrite Z.add_0_r. f_equal. rewrite IH, <- seq_shift, map_map.
  apply map_ext. intros k. lia.
Qed.

Lemma numberFrom_lower body : forall n x,
  In x (numberFrom n body) -> (n <= x)%Z.
Proof.
  induction body as [|l body IH]; intros n x; simpl; [tauto|].
  destruct (isCommentable l); [|apply IH].
  intros [<-|H]; [lia|]. apply IH in H. lia.
Qed.

Lemma numberFrom_sorted body : forall n,
  StronglySorted Z.lt (numberFrom n body).
Proof.
  induction body as [|l body IH]; intros n; simpl; [constructor|].
  destruct (isCommentable l); [|apply IH].
  constructor; [apply IH|]. apply Forall_forall. intros x Hx.
  apply numberFrom_lower in Hx. lia.
Qed.

Lemma sorted_lt_NoDup (l : list Z) : StronglySorted Z.lt l -> NoDup l.
Proof.
  induction 1 as [|a l Hs IH Ha]; constructor; [|assumption].
  intros Hin. rewrite Forall_forall in Ha. specialize (Ha _ Hin). lia.
Qed.

Lemma numberFrom_nth body : forall n i x,
  nth_error (numberFrom n body) i = Some x -> x = (n + Z.of_nat i)%Z.
Proof.
  induction body as [|l body IH]; intros n i x; simpl.
  - destruct i; discriminate.
  - destruct (isCommentable l); [|apply IH].
    destruct i as [|i]; simpl.
    + intros E. injection E as <-. lia.
    + intros E. apply IH in E. lia.
Qed.

End DiffFacts.

(** C2, as the code has it.  For every diff text, the lines of the diff
    are the lines before the first valid hunk header followed by the hunks
    in order, and the result of [extractValidCommentLines] is the
    concatenation, in the order of the hunks, of one sequence per hunk.
    The sequence of a hunk has one number per added or context line of the
    hunk and never decreases, and every number of the result is the number
    of an added or context line of the diff that lies in some hunk.  In a
    hunk that ends at or below 2^53 the sequence is
    [newStart, newStart+1, ...]: it is strictly increasing and free of
    duplicates, and the number of a line is [newStart] plus the count of
    added and context lines before it in the hunk. *)
Theorem commentable_lines_follow_hunks (diff : text) :
  let ls := split LF diff in
  let hs := hunks ls in
  ls = preamble ls ++ unparse hs
  /\ Forall (fun l => headerStart l = None) (preamble ls)
  /\ Forall wellFormed hs
  /\ extractValidCommentLines diff = concat (map cursorLines hs)
  /\ Forall (fun h =>
       length (cursorLines h) = commentableCount h
       /\ StronglySorted Z.le (cursorLines h)
       /\ (countsExactly h = true ->
           cursorLines h =
             map (fun k => (newStart h + Z.of_nat k)%Z)
                 (seq 0 (commentableCount h))
           /\ StronglySorted Z.lt (cursorLines h)
           /\ NoDup (cursorLines h))) hs
  /\ forall x, In x (extractValidCommentLines diff) ->
       exists h k l,
         In h hs /\ nth_error (lines h) k = Some l
         /\ In l ls
         /\ isCommentable l = true
         /\ nth_error (cursorLines h) (commentableBefore k (lines h)) = Some x
         /\ (countsExactly h = true ->
             x = (newStart h + Z.of_nat (commentableBefore k (lines h)))%Z).
Proof.
  intros ls hs.
  destruct (hunksOf_spec ls) as (Heq & Hpre & Hwf).
  assert (Hres : extractValidCommentLines diff = concat (map cursorLines hs))
    by (rewrite extractValidCommentLines_scan; apply scanLines_hunks).
  repeat split; try assumption.
  - apply Forall_forall. intros h Hh. split; [|split].
    + apply cursorFrom_length.
    + rewrite Forall_forall in Hwf. destruct (Hwf h Hh) as [Hs _].
      apply headerStart_double in Hs. destruct Hs as [m Hm].
      unfold cursorLines. rewrite Hm. apply cursorFrom_sorted.
    + intros Hb. rewrite (cursorLines_exact h Hb). repeat split.
      * apply numberFrom_seq.
      * apply numberFrom_sorted.
      * apply sorted_lt_NoDup, numberFrom_sorted.
  - intros x Hx. rewrite Hres in Hx. apply in_concat in Hx.
    destruct Hx as (l & Hl & Hx). apply in_map_iff in Hl.
    destruct Hl as (h & <- & Hh). apply cursorFrom_line in Hx.
    destruct Hx as (k & l & Hk & Hc & Hx). exists h, k, l.
    repeat split; try assumption.
    + rewrite Heq. apply in_or_app. right. unfold unparse.
      apply in_flat_map. exists h. split; [assumption|].
      right. now apply nth_error_In with k.
    + intros Hb. fold (cursorLines h) in Hx.
      rewrite (cursorLines_exact h Hb) in Hx.
      now apply numberFrom_nth in Hx.
Qed.

(** The example of the specification meets the bound: its only hunk ends
    at line 5, so its numbers are free of duplicates. *)
Lemma commentable_lines_follow_hunks_witness :
  let diff := join LF (map str ["@@ -1,3 +1,4 @@"; " line1"; "+line2";
                                " line3"; "-line4"; " line5"]%string) in
  Forall (fun h => StronglySorted Z.lt (cursorLines h)
                   /\ NoDup (cursorLines h)) (hunks (split LF diff)).
Proof.
  intros diff.
  destruct (commentable_lines_follow_hunks diff) as (_ & _ & _ & _ & F & _).
  assert (B : forallb countsExactly (hunks (split LF diff)) = true)
    by (vm_compute; reflexivity).
  rewrite forallb_forall in B. rewrite Forall_forall in F.
  apply Forall_forall. intros h Hh.
  destruct (F h Hh) as (_ & _ & H). destruct (H (B h Hh)) as (_ & H1 & H2).
  split; assumption.
Defined.

(** C2, as stated, fails: the only hunk starts at line 2^53 - 1 and has
    three added lines; the cursor, a double, stays at 2^53 once it has
    reached it, so the second and the third line both get the number 2^53:
    the sequence of the hunk is not strictly increasing and holds a
    duplicate. *)
Lemma cursor_stops_counting_at_2_53 :
  let diff := join LF (map str ["@@ -1 +9007199254740991 @@"; "+a"; "+b";
                                "+c"]%string) in
  length (hunks (split LF diff)) = 1
  /\ extractValidCommentLines diff
     = [9007199254740991; 9007199254740992; 9007199254740992]%Z
  /\ ~ NoDup (extractValidCommentLines diff)
  /\ ~ StronglySorted Z.lt (extractValidCommentLines diff).
Proof.
  intros diff.
  assert (E : extractValidCommentLines diff
              = [9007199254740991; 9007199254740992; 9007199254740992]%Z)
    by (vm_compute; reflexivity).
  split; [vm_compute; reflexivity|]. split; [exact E|]. rewrite E. split.
  - intros H. inversion H as [|? ? _ H1]; subst.
    inversion H1 as [|? ? H2 _]; subst. apply H2. now left.
  - intros H. inversion H as [|? ? H1 _]; subst.
    inversion H1 as [|? ? _ H2]; subst.
    inversion H2 as [|? ? H3 _]; subst. lia.
Qed.

(** Beyond 2^53 the cursor is rounded to the neighbour with the even
    significand: it skips a number or stays where it is, and a header
    number that is no double is rounded when it is read.  A number of 310
    digits is [Infinity], and stays so. *)
Example cursor_beyond_2_53 :
  extractValidCommentLines
    (join LF (map str ["@@ -1 +9007199254740994 @@"; "+a"; "+b"; "+c"]%string))
  = [9007199254740994; 9007199254740996; 9007199254740996]%Z
  /\ extractValidCommentLines
       (join LF (map str ["@@ -1 +9007199254740993 @@"; "+a"]%string))
     = [9007199254740992]%Z
  /\ extractValidCommentLines
       (join LF [str "@@ -1 +1" ++ repeat "0"%char 309 ++ str " @@";
                 str "+a"; str "+b"])
     = [infinity; infinity].
Proof. repeat split; vm_compute; reflexivity. Qed.

(** C4.  The example of the specification: context [line1] is line 1,
    added [line2] is line 2, context [line3] is line 3, removed [line4] is
    neither recorded nor counted, context [line5] is line 4. *)
Theorem commentable_lines_example :
  extractValidCommentLines
    (join LF (map str ["@@ -1,3 +1,4 @@"; " line1"; "+line2"; " line3";
                       "-line4"; " line5"]%string))
  = [1; 2; 3; 4]%Z.
Proof. vm_compute. reflexivity. Qed.

Section MalformedHeaders.

Lemma split_app_LF (w rest : text) :
  hasNoLF w = true -> split LF (w ++ LF :: rest) = w :: split LF rest.
Proof.
  unfold hasNoLF. induction w as [|c w IH]; intros H.
  - reflexivity.
  - simpl in H. apply andb_true_iff in H. destruct H as [Hc Hw].
    apply negb_true_iff in Hc.
    change ((c :: w) ++ LF :: rest) with (c :: (w ++ LF :: rest)).
    cbn [split]. rewrite Hc, (IH Hw). reflexivity.
Qed.

Lemma split_line (w : text) : hasNoLF w = true -> split LF w = [w].
Proof.
  unfold hasNoLF. induction w as [|c w IH]; intros H; [reflexivity|].
  simpl in H. apply andb_true_iff in H. destruct H as [Hc Hw].
  apply negb_true_iff in Hc. cbn [split]. rewrite Hc, (IH Hw). reflexivity.
Qed.

Lemma split_join (ls : list text) :
  ls <> [] -> Forall (fun l => hasNoLF l = true) ls ->
  split LF (join LF ls) = ls.
Proof.
  induction ls as [|w ls IH]; intros Hne H; [congruence|].
  inversion H as [|? ? Hw Hls]; subst.
  destruct ls as [|w' ls].
  - simpl. now apply split_line.
  - change (join LF (w :: w' :: ls)) with (w ++ LF :: join LF (w' :: ls)).
    rewrite split_app_LF by assumption. f_equal.
    apply IH; [discriminate|assumption].
Qed.

Lemma extract_join (ls : list text) :
  Forall (fun l => hasNoLF l = true) ls ->
  extractValidCommentLines (join LF ls) = validLines (scanLines ls).
Proof.
  intros H. destruct ls as [|w ls]; [reflexivity|].
  rewrite extractValidCommentLines_scan, split_join; [reflexivity| |assumption].
  discriminate.
Qed.

Lemma Forall_remove_middle {A} (P : A -> Prop) (pre post : list A) (x : A) :
  Forall P (pre ++ x :: post) -> Forall P (pre ++ post).
Proof.
  rewrite !Forall_app. intros [H1 H2]. inversion H2; subst. auto.
Qed.

End MalformedHeaders.

(** C3, as the code has it.  A malformed hunk header is ignored and leaves
    the cursor as it was: deleting the line from the diff does not change
    the result.  When no valid header precedes the malformed one the cursor
    stays unset, and the lines up to the next valid header contribute
    nothing.  (When a valid header set the cursor earlier, the added and
    context lines after the malformed header are still recorded, numbered on
    from that cursor: this is the first equation.) *)
Theorem malformed_header_is_ignored (pre post : list text) (bad : text) :
  Forall (fun l => hasNoLF l = true) (pre ++ bad :: post) ->
  isMalformedHeader bad = true ->
  extractValidCommentLines (join LF (pre ++ bad :: post))
  = extractValidCommentLines (join LF (pre ++ post))
  /\ (forall mid rest,
        post = mid ++ rest ->
        Forall (fun l => headerStart l = None) (pre ++ mid) ->
        extractValidCommentLines (join LF (pre ++ bad :: post))
        = extractValidCommentLines (join LF rest)).
Proof.
  intros Hlf Hbad.
  assert (Hlf' := Forall_remove_middle _ _ _ _ Hlf).
  rewrite !extract_join by assumption.
  assert (E : scanLines (pre ++ bad :: post) = scanLines (pre ++ post)).
  { unfold scanLines. rewrite !fold_left_app. simpl.
    now rewrite step_malformed. }
  split; [now rewrite E|].
  intros mid rest -> Hnone.
  rewrite extract_join.
  - rewrite E. unfold scanLines, init. rewrite app_assoc, fold_left_app.
    now rewrite fold_preamble.
  - rewrite !Forall_app in Hlf'. tauto.
Qed.

Lemma malformed_header_is_ignored_witness :
  extractValidCommentLines
    (join LF (map str ["@@ -1 +1 @@"; "+a"; "@@ bad"; "+b"]%string))
  = extractValidCommentLines
    (join LF (map str ["@@ -1 +1 @@"; "+a"; "+b"]%string)).
Proof.
  apply (malformed_header_is_ignored
           (map str ["@@ -1 +1 @@"; "+a"]%string)
           (map str ["+b"]%string) (str "@@ bad")).
  - repeat constructor.
  - reflexivity.
Defined.

(** C3, as stated, fails: a valid header sets the cursor to 1, the added
    line [+a] is line 1, then comes a malformed header, and the added line
    [+b] after it is still recorded, as line 2. *)
Lemma malformed_header_keeps_earlier_cursor :
  let diff := join LF (map str ["@@ -1 +1 @@"; "+a"; "@@ bad"; "+b"]%string) in
  isMalformedHeader (str "@@ bad") = true
  /\ extractValidCommentLines diff = [1; 2]%Z
  /\ extractValidCommentLines diff <> [1]%Z.
Proof.
  repeat split; try (vm_compute; reflexivity).
  vm_compute. discriminate.
Qed.

(** ** The comment de-duplicator *)

Section DedupFacts.

Lemma text_eqb_eq (a b : text) : text_eqb a b = true <-> a = b.
Proof.
  unfold text_eqb. destruct (list_eq_dec ascii_dec a b); split;
    congruence.
Qed.

Lemma gt_iff (a b : Q) : gt a b = true <-> (b < a)%Q.
Proof.
  unfold gt. rewrite negb_true_iff. split.
  - intros H. apply Qnot_le_lt. intros Hle.
    apply Qle_bool_iff in Hle. congruence.
  - intros H. destruct (Qle_bool a b) eqn:E; [|reflexivity].
    apply Qle_bool_iff in E. exfalso. now apply (Qlt_not_le b a).
Qed.

Lemma matches_iff (newComment e : comment) :
  matches newComment e = true <->
  extractCommentTemplate (body e) = extractCommentTemplate (body newComment)
  \/ (1 # 2 < calculateKeywordOverlap
                (extractKeywordsFromComment (body newComment))
                (extractKeywordsFromComment (body e)))%Q
  \/ (3 # 5 < stringSimilarity (body newComment) (body e))%Q
  \/ (17 # 20 < stringSimilarity
                  (extractCommentTemplate (body newComment))
                  (extractCommentTemplate (body e)))%Q.
Proof.
  unfold matches.
  destruct (text_eqb (extractCommentTemplate (body e))
                     (extractCommentTemplate (body newComment))) eqn:E.
  - apply text_eqb_eq in E. tauto.
  - rewrite !orb_true_iff, !gt_iff.
    assert (extractCommentTemplate (body e)
            <> extractCommentTemplate (body newComment)).
    { intros H. apply text_eqb_eq in H. congruence. }
    tauto.
Qed.

Lemma scanExisting_existsb newComment p es :
  scanExisting newComment p es = existsb (nearMatch newComment p) es.
Proof.
  induction es as [|e es IH]; [reflexivity|].
  simpl. unfold nearMatch at 1. rewrite Z.leb_antisym.
  destruct (p <? lineDiff newComment e)%Z; simpl; [assumption|].
  destruct (matches newComment e); simpl; [reflexivity|assumption].
Qed.

Lemma existsb_Permutation {A} (f : A -> bool) (l l' : list A) :
  Permutation l l' -> existsb f l = existsb f l'.
Proof.
  induction 1 as [|x l l' _ IH|x y l|l l' l'' _ IH1 _ IH2]; simpl.
  - reflexivity.
  - now rewrite IH.
  - now destruct (f x), (f y).
  - congruence.
Qed.

Lemma isDuplicateComment_existsb newComment es lineProximity :
  isDuplicateComment newComment es lineProximity =
  existsb (nearMatch newComment (proximityOf lineProximity)) es.
Proof.
  unfold isDuplicateComment. now rewrite scanExisting_existsb.
Qed.

End DedupFacts.



(** C10.  The result of [isDuplicateComment] does not depend on the order
    of the existing comments. *)
Theorem isDuplicate_permutation_invariant
  (newComment : comment) (existing existing' : list comment)
  (lineProximity : option Z) :
  Permutation existing existing' ->
  isDuplicateComment newComment existing lineProximity
  = isDuplicateComment newComment existing' lineProximity.
Proof.
  intros H. rewrite !isDuplicateComment_existsb.
  now apply existsb_Permutation.
Qed.

Lemma isDuplicate_permutation_invariant_witness :
  isDuplicateComment (mkComment 10 (str "Possible null dereference of user."))
    [mkComment 40 (str "Missing semicolon.");
     mkComment 11 (str "Possible null dereference of account.")] None
  = isDuplicateComment (mkComment 10 (str "Possible null dereference of user."))
    [mkComment 11 (str "Possible null dereference of account.");
     mkComment 40 (str "Missing semicolon.")] None.
Proof.
  apply isDuplicate_permutation_invariant. apply perm_swap.
Defined.

(** ** Comment templates *)

Section ReplaceFacts.

Variable m : rewriter.

Lemma replaceFrom_skip_run (f : ascii -> bool) (r : text) : forall prev,
  replaceFrom m (length (takeWhile f r)) prev r
  = replaceFrom m 0 (prevAfter prev (takeWhile f r)) (dropWhile f r).
Proof.
  induction r as [|c r IH]; intros prev; [reflexivity|].
  cbn [takeWhile dropWhile]. destruct (f c); [|reflexivity].
  cbn [length replaceFrom]. rewrite IH. reflexivity.
Qed.

Lemma replaceFrom_no_match prev c r :
  m prev (c :: r) = None ->
  replaceFrom m 0 prev (c :: r) = c :: replaceFrom m 0 (Some c) r.
Proof. intros H. cbn [replaceFrom]. now rewrite H. Qed.

End ReplaceFacts.

Section IdentifierPass.

Lemma letter_isWord c : isLetter c = true -> isWord c = true.
Proof. unfold isWord. now intros ->. Qed.

Lemma dropWhile_stops (r : text) : startsNoWord (dropWhile isWord r) = true.
Proof.
  induction r as [|c r IH]; [reflexivity|]. cbn [dropWhile].
  destruct (isWord c) eqn:E; [assumption|]. cbn [startsNoWord]. now rewrite E.
Qed.

Lemma takeWhile_all (f : ascii -> bool) (r : text) :
  forallb f (takeWhile f r) = true.
Proof.
  induction r as [|c r IH]; [reflexivity|]. cbn [takeWhile].
  destruct (f c) eqn:E; [|reflexivity]. cbn [forallb]. now rewrite E.
Qed.

Lemma takeWhile_dropWhile (f : ascii -> bool) (r : text) :
  takeWhile f r ++ dropWhile f r = r.
Proof.
  induction r as [|c r IH]; [reflexivity|]. cbn [takeWhile dropWhile].
  destruct (f c); [|reflexivity]. simpl. now rewrite IH.
Qed.

Lemma dropWhile_length (f : ascii -> bool) (r : text) :
  length (dropWhile f r) <= length r.
Proof.
  induction r as [|c r IH]; [auto|]. cbn [dropWhile].
  destruct (f c); simpl; lia.
Qed.

Lemma run_then_stop (t X : text) :
  forallb isWord t = true -> startsNoWord X = true ->
  takeWhile isWord (t ++ X) = t /\ dropWhile isWord (t ++ X) = X.
Proof.
  intros Ht HX. induction t as [|c t IH].
  - destruct X as [|d X]; [auto|]. cbn [startsNoWord] in HX.
    apply negb_true_iff in HX. simpl. now rewrite HX.
  - cbn [forallb] in Ht. apply andb_true_iff in Ht. destruct Ht as [Hc Ht].
    destruct (IH Ht) as [E1 E2]. simpl. rewrite Hc, E1, E2. auto.
Qed.

Lemma identifier_other prev c r :
  atWordStart prev && isLetter c = false ->
  replaceFrom identifier 0 prev (c :: r)
  = c :: replaceFrom identifier 0 (Some c) r.
Proof.
  intros H. apply replaceFrom_no_match. unfold identifier. now rewrite H.
Qed.

Lemma identifier_from_stop prev prev' X :
  startsNoWord X = true ->
  replaceFrom identifier 0 prev X = replaceFrom identifier 0 prev' X.
Proof.
  destruct X as [|d X]; [reflexivity|]. cbn [startsNoWord]. intros H.
  apply negb_true_iff in H.
  assert (L : isLetter d = false).
  { destruct (isLetter d) eqn:E; [|reflexivity].
    apply letter_isWord in E. congruence. }
  rewrite !identifier_other by (rewrite L; apply andb_false_r).
  reflexivity.
Qed.

Lemma identifier_keeps_stop prev X :
  startsNoWord X = true ->
  startsNoWord (replaceFrom identifier 0 prev X) = true.
Proof.
  destruct X as [|d X]; [reflexivity|]. intros H.
  rewrite identifier_other; [assumption|].
  cbn [startsNoWord] in H. apply negb_true_iff in H.
  destruct (isLetter d) eqn:E; [|apply andb_false_r].
  apply letter_isWord in E. congruence.
Qed.

(** At a word start, a letter opens a token: the whole run of word
    characters is classified, and the walk resumes after it. *)
Lemma identifier_token prev prev' c r :
  atWordStart prev = true -> isLetter c = true ->
  replaceFrom identifier 0 prev (c :: r)
  = classify (c :: takeWhile isWord r)
    ++ replaceFrom identifier 0 prev' (dropWhile isWord r).
Proof.
  intros Hp Hc. cbn [replaceFrom]. unfold identifier at 1.
  rewrite Hp, Hc. cbn [andb takeWhile]. rewrite (letter_isWord _ Hc).
  cbn [length pred]. rewrite replaceFrom_skip_run. f_equal.
  apply identifier_from_stop, dropWhile_stops.
Qed.

Lemma classify_cases c t :
  isLetter c = true -> forallb isWord t = true ->
  classify (c :: t) = c :: t
  \/ classify (c :: t) = str "{var}"
  \/ classify (c :: t) = str "{Class}".
Proof.
  intros Hc Ht. unfold classify.
  destruct (isCommonWord (c :: t)); [auto|].
  destruct (isCodeKeyword (c :: t)); [auto|].
  cbn [looksLikeVariable looksLikeClass]. rewrite Ht, !andb_true_r.
  unfold isLetter in Hc. destruct (isLower c); [auto|].
  rewrite orb_false_r in Hc. rewrite Hc. auto.
Qed.

Lemma identifier_var prev X :
  replaceFrom identifier 0 prev (str "{var}" ++ X)
  = str "{var}" ++ replaceFrom identifier 0 (Some "}"%char) X.
Proof.
  change (str "{var}" ++ X)
    with ("{" :: "v" :: "a" :: "r" :: "}" :: X)%char.
  rewrite identifier_other by apply andb_false_r.
  rewrite (identifier_token _ (Some "r"%char)) by reflexivity.
  change (takeWhile isWord ("a" :: "r" :: "}" :: X)%char)
    with ["a"; "r"]%char.
  change (dropWhile isWord ("a" :: "r" :: "}" :: X)%char)
    with ("}"%char :: X).
  replace (classify ["v"; "a"; "r"]%char) with ["v"; "a"; "r"]%char
    by (vm_compute; reflexivity).
  rewrite identifier_other by reflexivity. reflexivity.
Qed.

Lemma identifier_Class prev X :
  replaceFrom identifier 0 prev (str "{Class}" ++ X)
  = str "{Class}" ++ replaceFrom identifier 0 (Some "}"%char) X.
Proof.
  change (str "{Class}" ++ X)
    with ("{" :: "C" :: "l" :: "a" :: "s" :: "s" :: "}" :: X)%char.
  rewrite identifier_other by apply andb_false_r.
  rewrite (identifier_token _ (Some "s"%char)) by reflexivity.
  change (takeWhile isWord ("l" :: "a" :: "s" :: "s" :: "}" :: X)%char)
    with ["l"; "a"; "s"; "s"]%char.
  change (dropWhile isWord ("l" :: "a" :: "s" :: "s" :: "}" :: X)%char)
    with ("}"%char :: X).
  replace (classify ["C"; "l"; "a"; "s"; "s"]%char)
    with ["C"; "l"; "a"; "s"; "s"]%char by (vm_compute; reflexivity).
  rewrite identifier_other by reflexivity. reflexivity.
Qed.

(** A second walk over the output of the identifier pass changes nothing:
    tokens that were kept are kept again, and the words [var] and [Class]
    inside the placeholders are keywords. *)
Lemma identifier_idempotent_from (n : nat) : forall s prev prev',
  length s <= n ->
  atWordStart prev = atWordStart prev' ->
  replaceFrom identifier 0 prev' (replaceFrom identifier 0 prev s)
  = replaceFrom identifier 0 prev s.
Proof.
  induction n as [|n IH]; intros s prev prev' Hlen Hprev.
  - destruct s; [reflexivity|simpl in Hlen; lia].
  - destruct s as [|c r]; [reflexivity|]. simpl in Hlen.
    destruct (atWordStart prev && isLetter c) eqn:E.
    + apply andb_true_iff in E. destruct E as [Hp Hc].
      rewrite (identifier_token prev (Some c)) by assumption.
      set (t := takeWhile isWord r). set (rest := dropWhile isWord r).
      assert (Ht : forallb isWord t = true) by apply takeWhile_all.
      assert (Hrest : length rest <= n).
      { pose proof (dropWhile_length isWord r). unfold rest. lia. }
      assert (Hstop : startsNoWord rest = true) by apply dropWhile_stops.
      destruct (classify_cases c t Hc Ht) as [K|[K|K]]; rewrite K.
      * change ((c :: t) ++ replaceFrom identifier 0 (Some c) rest)
          with (c :: (t ++ replaceFrom identifier 0 (Some c) rest)).
        rewrite (identifier_token prev' (Some c));
          [|congruence|assumption].
        destruct (run_then_stop t (replaceFrom identifier 0 (Some c) rest)
                    Ht (identifier_keeps_stop _ _ Hstop)) as [E1 E2].
        rewrite E1, E2, K. simpl. f_equal. f_equal.
        apply IH; auto.
      * rewrite identifier_var. f_equal.
        rewrite (identifier_from_stop (Some c) (Some "}"%char)) by assumption.
        apply IH; auto.
      * rewrite identifier_Class. f_equal.
        rewrite (identifier_from_stop (Some c) (Some "}"%char)) by assumption.
        apply IH; auto.
    + rewrite identifier_other by assumption.
      rewrite identifier_other by (rewrite <- Hprev; assumption).
      f_equal. apply IH; [lia|reflexivity].
Qed.

Lemma replaceIdentifiers_idempotent (s : text) :
  replaceIdentifiers (replaceIdentifiers s) = replaceIdentifiers s.
Proof.
  unfold replaceIdentifiers, replaceAll.
  now apply (identifier_idempotent_from (length s)).
Qed.

End IdentifierPass.

Section LaterPasses.

Lemma startsWith_app (p a b : text) :
  startsWith p a = true -> startsWith p (a ++ b) = true.
Proof.
  revert a. induction p as [|x p IH]; intros a H; [reflexivity|].
  destruct a as [|y a]; [discriminate|]. cbn [startsWith] in *.
  apply andb_true_iff in H. destruct H as [H1 H2].
  simpl. rewrite H1. cbn [startsWith andb]. auto.
Qed.

Lemma startsWith_self (p b : text) : startsWith p (p ++ b) = true.
Proof.
  induction p as [|x p IH]; [reflexivity|]. simpl.
  now rewrite Ascii.eqb_refl.
Qed.

Lemma startsWith_split (p s : text) :
  startsWith p s = true -> s = p ++ skipn (length p) s.
Proof.
  revert s. induction p as [|x p IH]; intros s H; [reflexivity|].
  destruct s as [|y s]; [discriminate|]. cbn [startsWith] in H.
  apply andb_true_iff in H. destruct H as [H1 H2].
  apply Ascii.eqb_eq in H1. subst y. simpl. f_equal. auto.
Qed.

Lemma includes_cons (p : text) c s :
  includes p (c :: s) = startsWith p (c :: s) || includes p s.
Proof. reflexivity. Qed.

Lemma includes_app_l (p a b : text) :
  includes p a = true -> includes p (a ++ b) = true.
Proof.
  induction a as [|c a IH]; intros H.
  - simpl in H. rewrite orb_false_r in H.
    destruct p; [|discriminate]. destruct b; reflexivity.
  - rewrite includes_cons in H. apply orb_true_iff in H.
    change ((c :: a) ++ b) with (c :: (a ++ b)). rewrite includes_cons.
    apply orb_true_iff. destruct H as [H|H].
    + left. now apply (startsWith_app p (c :: a) b).
    + right. auto.
Qed.

Lemma includes_middle (p a b : text) : includes p (a ++ p ++ b) = true.
Proof.
  induction a as [|c a IH].
  - simpl app. destruct (p ++ b) eqn:E.
    + destruct p; [reflexivity|discriminate].
    + rewrite includes_cons, <- E, startsWith_self. reflexivity.
  - change ((c :: a) ++ p ++ b) with (c :: (a ++ p ++ b)).
    rewrite includes_cons, IH. apply orb_true_r.
Qed.

(** A global replacement whose replacements all contain [p] leaves the
    input unchanged when [p] does not occur in the output. *)
Lemma replaceAll_unchanged (m : rewriter) (p : text) :
  (forall prev s len repl,
      m prev s = Some (len, repl) -> includes p repl = true) ->
  forall s prev,
    includes p (replaceFrom m 0 prev s) = false ->
    replaceFrom m 0 prev s = s.
Proof.
  intros Hm. induction s as [|c r IH]; intros prev H; [reflexivity|].
  cbn [replaceFrom] in *. destruct (m prev (c :: r)) as [[len repl]|] eqn:E.
  - apply Hm in E. rewrite (includes_app_l _ _ _ E) in H. discriminate.
  - rewrite includes_cons in H. apply orb_false_iff in H.
    f_equal. apply IH. tauto.
Qed.

(** What Case 3 puts in place of a match: the dot, the white space, the
    placeholder, the white space and the parenthesis. *)
Lemma methodCall_shape prev s len repl :
  methodCall prev s = Some (len, repl) ->
  exists dot ws1 ws2 p,
    repl = (dot :: ws1) ++ str "{method}" ++ ws2 ++ [p].
Proof.
  unfold methodCall. destruct s as [|dot r]; [discriminate|].
  destruct (Ascii.eqb dot "."); [|discriminate].
  destruct (dropWhile isSpace r) as [|c r1]; [discriminate|].
  destruct (isLetter c); [|discriminate].
  destruct (dropWhile isSpace (dropWhile isWord r1)) as [|p r3];
    [discriminate|].
  destruct (Ascii.eqb p "("); [|discriminate].
  intros H. injection H as _ <-.
  now exists dot, (takeWhile isSpace r),
    (takeWhile isSpace (dropWhile isWord r1)), p.
Qed.

Lemma methodCall_marks prev s len repl :
  methodCall prev s = Some (len, repl) ->
  includes (str "{method}") repl = true.
Proof.
  intros H. apply methodCall_shape in H.
  destruct H as (dot & ws1 & ws2 & p & ->). apply includes_middle.
Qed.

Lemma replaceMethodCalls_unchanged (s : text) :
  includes (str "{method}") (replaceMethodCalls s) = false ->
  replaceMethodCalls s = s.
Proof.
  apply (replaceAll_unchanged methodCall (str "{method}")).
  exact methodCall_marks.
Qed.

Lemma includes_skip_words (p : text) (dot : ascii) (t rest : text) :
  isWord dot = false -> forallb isWord t = true ->
  includes (dot :: p) (t ++ rest) = includes (dot :: p) rest.
Proof.
  intros Hd. induction t as [|w t IH]; intros Ht; [reflexivity|].
  cbn [forallb] in Ht. apply andb_true_iff in Ht. destruct Ht as [Hw Ht].
  change ((w :: t) ++ rest) with (w :: (t ++ rest)).
  rewrite includes_cons, (IH Ht). cbn [startsWith].
  destruct (Ascii.eqb dot w) eqn:E; [|reflexivity].
  apply Ascii.eqb_eq in E. congruence.
Qed.

(** The output of the identifier pass never contains [.loads ]: the word
    [loads] after a dot is a token, and it is neither a common word nor a
    keyword. *)
Lemma identifier_fixpoint_no_loads (n : nat) : forall y prev,
  length y <= n ->
  replaceFrom identifier 0 prev y = y ->
  includes (str ".loads ") y = false.
Proof.
  induction n as [|n IH]; intros y prev Hlen Hfix.
  - destruct y; [reflexivity|simpl in Hlen; lia].
  - destruct y as [|c r]; [reflexivity|]. simpl in Hlen.
    rewrite includes_cons. apply orb_false_iff. split.
    + destruct (startsWith (str ".loads ") (c :: r)) eqn:E; [|reflexivity].
      exfalso. apply startsWith_split in E.
      set (b := skipn (length (str ".loads ")) (c :: r)) in E.
      rewrite E in Hfix.
      change (str ".loads " ++ b)
        with ("." :: "l" :: "o" :: "a" :: "d" :: "s" :: " " :: b)%char
        in Hfix.
      rewrite identifier_other in Hfix by apply andb_false_r.
      rewrite (identifier_token _ None) in Hfix by reflexivity.
      change (takeWhile isWord ("o" :: "a" :: "d" :: "s" :: " " :: b)%char)
        with ["o"; "a"; "d"; "s"]%char in Hfix.
      replace (classify ["l"; "o"; "a"; "d"; "s"]%char) with (str "{var}")
        in Hfix by (vm_compute; reflexivity).
      discriminate Hfix.
    + destruct (atWordStart prev && isLetter c) eqn:E.
      * apply andb_true_iff in E. destruct E as [Hp Hc].
        rewrite (identifier_token prev None) in Hfix by assumption.
        pose proof (takeWhile_all isWord r) as Ht.
        assert (K : classify (c :: takeWhile isWord r)
                    = c :: takeWhile isWord r).
        { destruct (classify_cases c _ Hc Ht) as [K|[K|K]]; [assumption| |];
            rewrite K in Hfix; injection Hfix as Hc' _; subst c;
            discriminate Hc. }
        rewrite K in Hfix.
        rewrite <- (takeWhile_dropWhile isWord r) in Hfix at 3.
        change ((c :: takeWhile isWord r)
                ++ replaceFrom identifier 0 None (dropWhile isWord r))
          with (c :: (takeWhile isWord r
                ++ replaceFrom identifier 0 None (dropWhile isWord r)))
          in Hfix.
        injection Hfix as Hfix. apply app_inv_head in Hfix.
        rewrite <- (takeWhile_dropWhile isWord r).
        change (str ".loads ") with ("."%char :: str "loads ").
        rewrite includes_skip_words; [|reflexivity|assumption].
        apply (IH _ None); [|assumption].
        pose proof (dropWhile_length isWord r). lia.
      * rewrite identifier_other in Hfix by assumption.
        injection Hfix as Hfix. apply (IH _ (Some c)); [lia|assumption].
Qed.

Lemma envVar_needs_loads prev s :
  includes (str ".loads ") s = false -> envVar prev s = None.
Proof.
  intros H. unfold envVar.
  destruct (startsWith jsonLoadsOn s) eqn:E; [|reflexivity].
  apply startsWith_split in E. rewrite E in H.
  set (b := skipn (length jsonLoadsOn) s) in H.
  assert (includes (str ".loads ") (jsonLoadsOn ++ b) = true)
    by apply (includes_middle (str ".loads ") (str "json") (str "on " ++ b)).
  congruence.
Qed.

Lemma replaceFirst_unchanged (m : rewriter) (p : text) :
  (forall prev s, includes p s = false -> m prev s = None) ->
  forall s prev, includes p s = false -> replaceFirstFrom m prev s = s.
Proof.
  intros Hm. induction s as [|c r IH]; intros prev H; [reflexivity|].
  cbn [replaceFirstFrom]. rewrite (Hm _ _ H).
  rewrite includes_cons in H. apply orb_false_iff in H.
  f_equal. apply IH. tauto.
Qed.

(** Case 2 never applies to the output of Case 1. *)
Lemma replaceEnvVar_after_identifiers (s : text) :
  replaceEnvVar (replaceIdentifiers s) = replaceIdentifiers s.
Proof.
  unfold replaceEnvVar, replaceFirst.
  apply (replaceFirst_unchanged envVar (str ".loads ")).
  - intros prev t. apply envVar_needs_loads.
  - apply (identifier_fixpoint_no_loads _ _ None (le_n _)).
    apply replaceIdentifiers_idempotent.
Qed.

End LaterPasses.

(** C5, as the code has it.  Applying [extractCommentTemplate] to its own
    output yields that output again whenever the output holds no [{method}]
    placeholder; the placeholders [{var}] and [{Class}] are not substituted
    again. *)
Theorem template_idempotent_without_method (s : text) :
  includes (str "{method}") (extractCommentTemplate s) = false ->
  extractCommentTemplate (extractCommentTemplate s) = extractCommentTemplate s.
Proof.
  unfold extractCommentTemplate. cbv zeta.
  rewrite !replaceEnvVar_after_identifiers. intros H.
  rewrite (replaceMethodCalls_unchanged _ H).
  rewrite replaceIdentifiers_idempotent.
  now apply replaceMethodCalls_unchanged.
Qed.

Lemma template_idempotent_without_method_witness :
  extractCommentTemplate
    (extractCommentTemplate (str "Unused variable `fooBar` should be removed."))
  = extractCommentTemplate (str "Unused variable `fooBar` should be removed.").
Proof.
  apply template_idempotent_without_method. vm_compute. reflexivity.
Defined.

(** C5, as stated, fails: in [x.get()] the method name [get] is a keyword,
    so Case 1 keeps it and Case 3 turns it into [{method}]; in a second
    application [method] is an ordinary identifier and becomes [{var}]. *)
Lemma template_not_idempotent :
  let s := str "x.get()" in
  extractCommentTemplate s = str "{var}.{method}()"
  /\ extractCommentTemplate (extractCommentTemplate s) = str "{var}.{{var}}()"
  /\ extractCommentTemplate (extractCommentTemplate s)
     <> extractCommentTemplate s.
Proof.
  repeat split; try (vm_compute; reflexivity).
  vm_compute. discriminate.
Qed.

(** C6: the code at the failing inputs.  A snake_case token starts with a
    lower-case letter and an ALL_CAPS token with a capital, so the two
    earlier tests of the callback catch them: the results are [{var}] and
    [{Class}], and the branches returning [{snake_var}] and [{CONST}] are
    never reached. *)
Theorem snake_and_constant_tokens_get_var_and_Class :
  extractCommentTemplate (str "foo_bar") = str "{var}"
  /\ extractCommentTemplate (str "MAX_SIZE") = str "{Class}"
  /\ (forall w, looksLikeSnake w = true -> looksLikeVariable w = true)
  /\ (forall w, looksLikeConstant w = true -> looksLikeClass w = true).
Proof.
  split; [vm_compute; reflexivity|]. split; [vm_compute; reflexivity|].
  split; intros [|c r]; try discriminate;
    cbn [looksLikeSnake looksLikeConstant looksLikeVariable looksLikeClass];
    intros H.
  - apply andb_true_iff in H. destruct H as [H _].
    apply andb_true_iff in H. destruct H as [Hc Hr]. rewrite Hc.
    cbn [andb]. rewrite forallb_forall in *. intros x Hx.
    specialize (Hr x Hx). unfold isLowerWord in Hr. unfold isWord, isLetter.
    destruct (isUpper x), (isLower x), (isDigit x), (Char.code x =? 95)%N;
      try discriminate; reflexivity.
  - apply andb_true_iff in H. destruct H as [Hc Hr]. rewrite Hc.
    cbn [andb]. rewrite forallb_forall in *. intros x Hx.
    specialize (Hr x Hx). unfold isUpperWord in Hr. unfold isWord, isLetter.
    destruct (isUpper x), (isLower x), (isDigit x), (Char.code x =? 95)%N;
      try discriminate; reflexivity.
Qed.

(** C7: the code at the failing input.  The method name [foo] is an
    ordinary identifier, Case 1 has already turned it into [{var}] when
    Case 3 runs, and Case 3 finds no letter after the dot.  Only a name that
    Case 1 keeps, such as the keyword [get], becomes [{method}]. *)
Theorem method_name_already_replaced :
  extractCommentTemplate (str "obj.foo()") = str "{var}.{var}()"
  /\ includes (str "{method}") (extractCommentTemplate (str "obj.foo()"))
     = false
  /\ extractCommentTemplate (str "Call arr.push(x) here")
     = str "{Class} {var}.{var}({var}) {var}"
  /\ extractCommentTemplate (str "obj.get()") = str "{var}.{method}()".
Proof. repeat split; vm_compute; reflexivity. Qed.

(** ** Keyword sets *)

Section KeywordFacts.

Lemma dedupeFrom_In (l : list text) : forall seen x,
  In x (dedupeFrom seen l) <-> In x l /\ arrayIncludes seen x = false.
Proof.
  induction l as [|y l IH]; intros seen x; cbn [dedupeFrom In]; [tauto|].
  destruct (arrayIncludes seen y) eqn:E.
  - rewrite IH. split; [tauto|]. intros [[<-|H] Hs]; [congruence|tauto].
  - cbn [In]. rewrite IH.
    assert (A : arrayIncludes (y :: seen) x
                = text_eqb x y || arrayIncludes seen x) by reflexivity.
    rewrite A, orb_false_iff. split.
    + intros [<-|(H & H1 & H2)]; tauto.
    + intros [[<-|H] Hs]; [tauto|].
      destruct (text_eqb x y) eqn:Exy.
      * apply text_eqb_eq in Exy. now left.
      * right. tauto.
Qed.

Lemma dedupe_In (l : list text) (x : text) : In x (dedupe l) <-> In x l.
Proof. unfold dedupe. rewrite dedupeFrom_In. simpl. tauto. Qed.

End KeywordFacts.

(** C8, as the code has it.  The keyword set is made of the code elements
    and the technical terms; every technical term is a word of the
    lower-cased text accepted by [isCodeRelatedTerm], and its length is
    strictly greater than 2.  Words of three characters are accepted. *)
Theorem technical_terms_longer_than_two (commentText w : text) :
  In w (technicalTerms commentText) ->
  2 < length w
  /\ isCodeRelatedTerm w = true
  /\ In w (extractKeywordsFromComment commentText).
Proof.
  intros H. unfold extractKeywordsFromComment. rewrite dedupe_In, in_app_iff.
  split; [|split; [|now right]]; unfold technicalTerms, words in H;
    apply filter_In in H; destruct H as [H Hterm]; [|assumption].
  apply filter_In in H. destruct H as [_ H]. now apply Nat.ltb_lt in H.
Qed.

Lemma technical_terms_longer_than_two_witness :
  2 < length (str "bug")
  /\ isCodeRelatedTerm (str "bug") = true
  /\ In (str "bug")
        (extractKeywordsFromComment (str "This is a bug in the parser.")).
Proof.
  apply (technical_terms_longer_than_two (str "This is a bug in the parser.")).
  vm_compute. left. reflexivity.
Defined.

(** C8, as stated, fails: [api] has three characters, is no code element,
    and enters the keyword set as a technical term; so does [bug]. *)
Lemma three_letter_terms_are_keywords :
  technicalTerms (str "api") = [str "api"]
  /\ codeElements (str "api") = []
  /\ extractKeywordsFromComment (str "api") = [str "api"]
  /\ technicalTerms (str "bug") = [str "bug"]
  /\ ~ (forall commentText w,
          In w (technicalTerms commentText) -> 3 < length w).
Proof.
  repeat split; try (vm_compute; reflexivity).
  intros H. specialize (H (str "api") (str "api")).
  assert (In (str "api") (technicalTerms (str "api")))
    by (vm_compute; left; reflexivity).
  apply H in H0. vm_compute in H0. lia.
Qed.

(** ** Empty bodies *)

Section VisibleCharacters.
















Lemma ratio_same (n : nat) : n <> 0 -> (ratio n n == 1)%Q.
Proof.
  intros H. unfold ratio. apply Qmult_inv_r.
  unfold Qeq. simpl. lia.
Qed.




End VisibleCharacters.




(** * Further properties of the code *)

Import HunkOrder.

(** ** The diff line mapper, seen from its caller *)

Section DiffMembership.

Lemma In_numberFrom_range (body : list text) (n x : Z) :
  In x (numberFrom n body) <->
  (n <= x < n + Z.of_nat (length (filter isCommentable body)))%Z.
Proof.
  rewrite numberFrom_seq, in_map_iff. split.
  - intros (k & <- & Hk). apply in_seq in Hk. lia.
  - intros H. exists (Z.to_nat (x - n)). split; [lia|].
    apply in_seq. lia.
Qed.

Lemma concat_nil_iff {A} (ls : list (list A)) :
  concat ls = [] <-> forall l, In l ls -> l = [].
Proof.
  induction ls as [|l ls IH]; simpl.
  - split; [intros _ l []|reflexivity].
  - split.
    + intros H. apply app_eq_nil in H. destruct H as [-> H].
      intros l' [<-|Hl']; [reflexivity|]. now apply IH.
    + intros H. rewrite (H l (or_introl eq_refl)). simpl. apply IH.
      intros l' Hl'. apply H. now right.
Qed.

Lemma hunks_without_header (ls : list text) :
  (forall l, In l ls -> headerStart l = None) -> hunks ls = [].
Proof.
  unfold hunks. induction ls as [|l ls IH]; intros H; [reflexivity|].
  simpl. destruct (hunksOf ls) as [pre hs] eqn:E. simpl in IH.
  rewrite (H l (or_introl eq_refl)). simpl. apply IH.
  intros l' Hl'. apply H. now right.
Qed.

Lemma hunkLines_lower (rest : list hunk) : forall h x,
  hunksInOrder (h :: rest) = true ->
  In x (concat (map hunkLines rest)) -> (hunkEnd h <= x)%Z.
Proof.
  induction rest as [|h' rest IH]; intros h x Hord Hx; [destruct Hx|].
  cbn [hunksInOrder] in Hord. apply andb_true_iff in Hord.
  destruct Hord as [Hle Hord]. apply Z.leb_le in Hle.
  simpl in Hx. apply in_app_or in Hx. destruct Hx as [Hx|Hx].
  - apply In_numberFrom_range in Hx. lia.
  - specialize (IH h' x Hord Hx). unfold hunkEnd in *. lia.
Qed.

Lemma sorted_app (a b : list Z) :
  StronglySorted Z.lt a -> StronglySorted Z.lt b ->
  (forall x y, In x a -> In y b -> (x < y)%Z) ->
  StronglySorted Z.lt (a ++ b).
Proof.
  induction a as [|x a IH]; intros Ha Hb Hab; [assumption|].
  inversion Ha as [|? ? Ha' Hx]; subst. simpl. constructor.
  - apply IH; auto. intros; apply Hab; simpl; auto.
  - apply Forall_app. split; [assumption|].
    apply Forall_forall. intros y Hy. apply Hab; simpl; auto.
Qed.

Lemma hunks_in_order_sorted (hs : list hunk) :
  hunksInOrder hs = true ->
  StronglySorted Z.lt (concat (map hunkLines hs)).
Proof.
  induction hs as [|h hs IH]; intros Hord; [constructor|].
  simpl. apply sorted_app.
  - apply numberFrom_sorted.
  - apply IH. destruct hs; [reflexivity|].
    cbn [hunksInOrder] in Hord. apply andb_true_iff in Hord. tauto.
  - intros x y Hx Hy. apply In_numberFrom_range in Hx.
    pose proof (hunkLines_lower hs h y Hord Hy) as Hlow.
    unfold hunkEnd, commentableCount in Hlow. lia.
Qed.

End DiffMembership.

(** X1.  The caller keeps a comment only when its line is in the result.
    For a diff whose hunks end at or below 2^53, a line number is in the
    result of [extractValidCommentLines] exactly when it lies in the range
    of some hunk, from the hunk's [newStart] up to, and not including,
    [newStart] plus the number of added and context lines of the hunk. *)
Theorem commentable_iff_in_hunk_range (diff : text) (x : Z) :
  forallb countsExactly (hunks (split LF diff)) = true ->
  (In x (extractValidCommentLines diff) <->
   exists h, In h (hunks (split LF diff))
             /\ (newStart h <= x < hunkEnd h)%Z).
Proof.
  intros B.
  rewrite extractValidCommentLines_scan, scanLines_hunks_exact, in_concat
    by assumption.
  split.
  - intros (l & Hl & Hx). apply in_map_iff in Hl. destruct Hl as (h & <- & Hh).
    exists h. split; [assumption|]. now apply In_numberFrom_range.
  - intros (h & Hh & Hx). exists (hunkLines h). split.
    + now apply in_map.
    + now apply In_numberFrom_range.
Qed.

Lemma commentable_iff_in_hunk_range_witness :
  let diff := join LF (map str ["@@ -1,2 +1,3 @@"; " a"; "+b"; " c";
                                "@@ -10,2 +11,1 @@"; "-d"; " e"]%string) in
  In 11%Z (extractValidCommentLines diff) <->
  exists h, In h (hunks (split LF diff))
            /\ (newStart h <= 11 < hunkEnd h)%Z.
Proof.
  intros diff. apply (commentable_iff_in_hunk_range diff 11%Z).
  vm_compute. reflexivity.
Defined.

(** X2.  The result is empty exactly when no hunk has an added or a
    context line; in particular it is empty for a diff without a valid hunk
    header (the empty diff is one) and for a diff whose hunks hold only
    removed lines. *)
Theorem no_commentable_line_iff (diff : text) :
  (extractValidCommentLines diff = [] <->
   forall h l, In h (hunks (split LF diff)) -> In l (lines h) ->
               isCommentable l = false)
  /\ ((forall l, In l (split LF diff) -> headerStart l = None) ->
      extractValidCommentLines diff = []).
Proof.
  assert (E : extractValidCommentLines diff = []
              <-> forall h l, In h (hunks (split LF diff)) ->
                              In l (lines h) -> isCommentable l = false).
  { rewrite extractValidCommentLines_scan, scanLines_hunks, concat_nil_iff.
    split.
    - intros H h l Hh.
      apply (proj1 (cursorFrom_nil_iff (lines h) (newStart h))).
      apply (H (cursorLines h)). now apply in_map.
    - intros H ns Hns. apply in_map_iff in Hns. destruct Hns as (h & <- & Hh).
      apply cursorFrom_nil_iff. intros l. now apply H. }
  split; [exact E|].
  intros H. apply E. rewrite (hunks_without_header _ H). intros h l [].
Qed.

(** X3.  When the hunks come in file order without overlapping and end
    at or below 2^53, the whole result is strictly increasing, so no line
    number occurs twice. *)
Theorem hunks_in_order_strictly_increasing (diff : text) :
  forallb countsExactly (hunks (split LF diff)) = true ->
  hunksInOrder (hunks (split LF diff)) = true ->
  StronglySorted Z.lt (extractValidCommentLines diff)
  /\ NoDup (extractValidCommentLines diff).
Proof.
  intros B H.
  rewrite extractValidCommentLines_scan, scanLines_hunks_exact by assumption.
  pose proof (hunks_in_order_sorted _ H) as S.
  split; [assumption|]. now apply sorted_lt_NoDup.
Qed.

Lemma hunks_in_order_strictly_increasing_witness :
  StronglySorted Z.lt
    (extractValidCommentLines
       (join LF (map str ["@@ -1,2 +1,3 @@"; " a"; "+b"; " c";
                          "@@ -10,2 +11,1 @@"; "-d"; " e"]%string)))
  /\ NoDup
    (extractValidCommentLines
       (join LF (map str ["@@ -1,2 +1,3 @@"; " a"; "+b"; " c";
                          "@@ -10,2 +11,1 @@"; "-d"; " e"]%string))).
Proof.
  apply hunks_in_order_strictly_increasing; vm_compute; reflexivity.
Defined.

(** ** The edit distance *)

Import EditDistance.

Section EditDistanceFacts.

Lemma editDistance_nil_r (a : text) : editDistance a [] = length a.
Proof. destruct a; reflexivity. Qed.

Lemma editDistance_cons (x y : ascii) (a b : text) :
  editDistance (x :: a) (y :: b)
  = Nat.min (Nat.min (editDistance a (y :: b) + 1)
                     (editDistance (x :: a) b + 1))
            (editDistance a b + substCost x y).
Proof. reflexivity. Qed.

Lemma substCost_sym (x y : ascii) : substCost x y = substCost y x.
Proof. unfold substCost. now rewrite Ascii.eqb_sym. Qed.

Lemma substCost_refl (x : ascii) : substCost x x = 0.
Proof. unfold substCost. now rewrite Ascii.eqb_refl. Qed.

Lemma substCost_le (x y : ascii) : substCost x y <= 1.
Proof. unfold substCost. destruct (Ascii.eqb x y); lia. Qed.

Lemma editDistance_sym (a : text) : forall b,
  editDistance a b = editDistance b a.
Proof.
  induction a as [|x a IHa]; intros b.
  - now rewrite editDistance_nil_r.
  - induction b as [|y b IHb]; [reflexivity|].
    rewrite !editDistance_cons, IHb, (IHa (y :: b)), (IHa b),
      (substCost_sym x y).
    lia.
Qed.

Lemma editDistance_refl (a : text) : editDistance a a = 0.
Proof.
  induction a as [|x a IH]; [reflexivity|].
  rewrite editDistance_cons, IH, substCost_refl. lia.
Qed.

Lemma editDistance_upper (a : text) : forall b,
  editDistance a b <= Nat.max (length a) (length b).
Proof.
  induction a as [|x a IHa]; intros b; [simpl; lia|].
  destruct b as [|y b]; [simpl; lia|].
  rewrite editDistance_cons. specialize (IHa b).
  pose proof (substCost_le x y). simpl length. lia.
Qed.

Lemma editDistance_lower (a : text) : forall b,
  length a - length b <= editDistance a b
  /\ length b - length a <= editDistance a b.
Proof.
  induction a as [|x a IHa]; intros b; [simpl; lia|].
  induction b as [|y b IHb]; [simpl; lia|].
  rewrite editDistance_cons.
  pose proof (IHa (y :: b)) as H1. pose proof (IHa b) as H2.
  simpl length in *. lia.
Qed.

Lemma prefixDistance_snoc (p q : text) (x y : ascii) :
  prefixDistance (p ++ [x]) (q ++ [y])
  = Nat.min (Nat.min (prefixDistance p (q ++ [y]) + 1)
                     (prefixDistance (p ++ [x]) q + 1))
            (prefixDistance p q + substCost x y).
Proof.
  unfold prefixDistance. rewrite !rev_app_distr. reflexivity.
Qed.

Lemma prefixDistance_nil_l (q : text) : prefixDistance [] q = length q.
Proof. unfold prefixDistance. simpl. apply length_rev. Qed.

Lemma prefixDistance_nil_r (p : text) : prefixDistance p [] = length p.
Proof.
  unfold prefixDistance. simpl. rewrite editDistance_nil_r. apply length_rev.
Qed.

Lemma substCost_eqb (c d : ascii) :
  (if Ascii.eqb c d then 0 else 1) = substCost c d.
Proof. reflexivity. Qed.

(** One row of the matrix from the row above it. *)
Lemma fillRow_row (c : ascii) (p : text) (t : text) : forall q,
  fillRow c t (map (prefixDistance p) (prefixesFrom q t))
          (prefixDistance (p ++ [c]) q)
  = map (prefixDistance (p ++ [c])) (tl (prefixesFrom q t)).
Proof.
  induction t as [|d t IH]; intros q; [reflexivity|].
  cbn [prefixesFrom map tl]. specialize (IH (q ++ [d])).
  destruct t as [|d' t].
  - cbn [prefixesFrom map fillRow]. rewrite substCost_eqb.
    rewrite <- prefixDistance_snoc. reflexivity.
  - cbn [prefixesFrom map fillRow] in *. rewrite substCost_eqb.
    rewrite <- prefixDistance_snoc. f_equal. exact IH.
Qed.

Lemma row_zero (t : text) : forall q,
  map (prefixDistance []) (prefixesFrom q t) = seq (length q) (S (length t)).
Proof.
  induction t as [|d t IH]; intros q.
  - simpl. now rewrite prefixDistance_nil_l.
  - cbn [prefixesFrom map]. rewrite IH, prefixDistance_nil_l, length_app.
    simpl. rewrite Nat.add_1_r. reflexivity.
Qed.

Lemma fillRows_rows (str2 : text) (rest : text) : forall p,
  fillRows (S (length p)) rest str2
           (map (prefixDistance p) (prefixesFrom [] str2))
  = map (prefixDistance (p ++ rest)) (prefixesFrom [] str2).
Proof.
  induction rest as [|c rest IH]; intros p.
  - now rewrite app_nil_r.
  - cbn [fillRows].
    assert (E : S (length p)
                :: fillRow c str2
                     (map (prefixDistance p) (prefixesFrom [] str2))
                     (S (length p))
                = map (prefixDistance (p ++ [c])) (prefixesFrom [] str2)).
    { replace (S (length p)) with (prefixDistance (p ++ [c]) [])
        by (rewrite prefixDistance_nil_r, length_app; simpl; lia).
      rewrite fillRow_row. destruct str2; reflexivity. }
    rewrite E.
    replace (S (S (length p))) with (S (length (p ++ [c])))
      by (rewrite length_app; simpl; lia).
    rewrite IH, <- app_assoc. reflexivity.
Qed.

Lemma last_prefixesFrom (f : text -> nat) (t : text) : forall q d,
  last (map f (prefixesFrom q t)) d = f (q ++ t).
Proof.
  induction t as [|c t IH]; intros q d.
  - simpl. now rewrite app_nil_r.
  - cbn [prefixesFrom map].
    change (last (f q :: map f (prefixesFrom (q ++ [c]) t)) d)
      with (match map f (prefixesFrom (q ++ [c]) t) with
            | [] => f q
            | _ :: _ => last (map f (prefixesFrom (q ++ [c]) t)) d
            end).
    destruct (map f (prefixesFrom (q ++ [c]) t)) eqn:E.
    + destruct t; discriminate E.
    + rewrite <- E, IH, <- app_assoc. reflexivity.
Qed.

Lemma levenshtein_recurrence (str1 str2 : text) :
  levenshteinDistance str1 str2 = editDistance (rev str1) (rev str2).
Proof.
  unfold levenshteinDistance.
  change (seq 0 (S (length str2)))
    with (seq (length (@nil ascii)) (S (length str2))).
  rewrite <- (row_zero str2 []).
  change 1 with (S (length (@nil ascii))).
  rewrite fillRows_rows, last_prefixesFrom. reflexivity.
Qed.

(** A minimum of several terms is below each of them: the term is looked
    for in the tree of [Nat.min]s. *)
Ltac min_below :=
  lazymatch goal with
  | |- Nat.min ?a ?b <= _ =>
      first [ apply (Nat.le_trans _ a); [apply Nat.le_min_l | min_below]
            | apply (Nat.le_trans _ b); [apply Nat.le_min_r | min_below] ]
  | |- _ => lia
  end.

(** The recurrence also holds on the last characters. *)
Lemma editDistance_snoc (x y : ascii) (a : text) : forall b,
  editDistance (a ++ [x]) (b ++ [y])
  = Nat.min (Nat.min (editDistance a (b ++ [y]) + 1)
                     (editDistance (a ++ [x]) b + 1))
            (editDistance a b + substCost x y).
Proof.
  induction a as [|a0 a IHa]; intros b; induction b as [|b0 b IHb].
  - reflexivity.
  - cbn [app] in *.
    rewrite (editDistance_cons x b0 [] (b ++ [y])), IHb.
    rewrite (editDistance_cons x b0 [] b).
    cbn [editDistance]. rewrite !length_app. simpl length. lia.
  - cbn [app] in *. specialize (IHa []). cbn [app] in IHa.
    rewrite (editDistance_cons a0 y (a ++ [x]) []), IHa.
    rewrite (editDistance_cons a0 y a []).
    rewrite !editDistance_nil_r. simpl length. rewrite !length_app.
    simpl length. lia.
  - pose proof (IHa (b0 :: b)) as H1. pose proof (IHa b) as H3.
    cbn [app] in *.
    rewrite (editDistance_cons a0 b0 (a ++ [x]) (b ++ [y])), H1, IHb, H3.
    rewrite (editDistance_cons a0 b0 a (b ++ [y])).
    rewrite (editDistance_cons a0 b0 (a ++ [x]) b).
    rewrite (editDistance_cons a0 b0 a b).
    rewrite <- !Nat.add_min_distr_r.
    apply Nat.le_antisymm; repeat apply Nat.min_glb; min_below.
Qed.

Lemma editDistance_rev (a : text) : forall b,
  editDistance (rev a) (rev b) = editDistance a b.
Proof.
  induction a as [|x a IHa]; intros b.
  - simpl. apply length_rev.
  - induction b as [|y b IHb].
    + rewrite !editDistance_nil_r. apply length_rev.
    + pose proof (IHa (y :: b)) as H1. pose proof (IHa b) as H3.
      cbn [rev] in *.
      rewrite editDistance_snoc, H1, IHb, H3. reflexivity.
Qed.

Lemma levenshtein_spec (str1 str2 : text) :
  levenshteinDistance str1 str2 = editDistance str1 str2.
Proof. rewrite levenshtein_recurrence. apply editDistance_rev. Qed.

End EditDistanceFacts.

(** X4.  [levenshteinDistance] computes the Levenshtein distance: the
    last cell of its matrix is the value of the textbook recurrence
    (deletion, insertion, substitution) on the two strings. *)
Theorem levenshtein_is_edit_distance (str1 str2 : text) :
  levenshteinDistance str1 str2 = editDistance str1 str2.
Proof. exact (levenshtein_spec str1 str2). Qed.

(** X5.  The distance of a string to itself is 0, the distance is
    symmetric, it is at least the difference of the two lengths and at most
    the greater length. *)
Theorem levenshtein_metric_facts (a b : text) :
  levenshteinDistance a a = 0
  /\ levenshteinDistance a b = levenshteinDistance b a
  /\ length a - length b <= levenshteinDistance a b
  /\ length b - length a <= levenshteinDistance a b
  /\ levenshteinDistance a b <= Nat.max (length a) (length b).
Proof.
  rewrite !levenshtein_spec.
  pose proof (editDistance_lower a b) as [L1 L2].
  pose proof (editDistance_upper a b) as U.
  repeat split; try assumption.
  - apply editDistance_refl.
  - apply editDistance_sym.
Qed.

(** ** Similarity scores *)

Section SimilarityFacts.

Lemma ratio_nonneg (a b : nat) : b <> 0 -> (0 <= ratio a b)%Q.
Proof.
  intros Hb. unfold ratio. apply Qle_shift_div_l.
  - change 0%Q with (inject_Z 0). rewrite <- Zlt_Qlt. lia.
  - rewrite Qmult_0_l. change 0%Q with (inject_Z 0). rewrite <- Zle_Qle. lia.
Qed.

Lemma ratio_le_1 (a b : nat) : b <> 0 -> a <= b -> (ratio a b <= 1)%Q.
Proof.
  intros Hb Hab. unfold ratio. apply Qle_shift_div_r.
  - change 0%Q with (inject_Z 0). rewrite <- Zlt_Qlt. lia.
  - rewrite Qmult_1_l. rewrite <- Zle_Qle. lia.
Qed.

Lemma ratio_lt_2 (a b : nat) : b <> 0 -> a < 2 * b -> (ratio a b < 2)%Q.
Proof.
  intros Hb Hab. unfold ratio. apply Qlt_shift_div_r.
  - change 0%Q with (inject_Z 0). rewrite <- Zlt_Qlt. lia.
  - change 2%Q with (inject_Z 2). rewrite <- inject_Z_mult, <- Zlt_Qlt. lia.
Qed.

Lemma ratio_zero (b : nat) : (ratio 0 b == 0)%Q.
Proof. unfold ratio, Qdiv. simpl. apply Qmult_0_l. Qed.

Lemma one_minus_bounds (r : Q) :
  (0 <= r)%Q -> (r <= 1)%Q -> (0 <= 1 - r <= 1)%Q.
Proof. intros. split; lra. Qed.

Lemma filter_length_le {A} (f : A -> bool) (l : list A) :
  length (filter f l) <= length l.
Proof.
  induction l as [|x l IH]; [auto|]. simpl. destruct (f x); simpl; lia.
Qed.

Lemma arrayIncludes_In (arr : list text) (w : text) :
  arrayIncludes arr w = true <-> In w arr.
Proof.
  unfold arrayIncludes. rewrite existsb_exists. split.
  - intros (x & Hx & E). apply text_eqb_eq in E. now subst.
  - intros H. exists w. split; [assumption|]. now apply text_eqb_eq.
Qed.

Lemma shared_le_other (l1 l2 : list text) :
  NoDup l1 -> length (filter (arrayIncludes l2) l1) <= length l2.
Proof.
  intros H. apply NoDup_incl_length.
  - now apply NoDup_filter.
  - intros w Hw. apply filter_In in Hw. now apply arrayIncludes_In.
Qed.

End SimilarityFacts.

(** X6.  Every text has similarity 1 with itself. *)
Theorem similarity_with_itself (s : text) :
  (stringSimilarity s s == 1)%Q.
Proof.
  unfold stringSimilarity. cbv zeta.
  rewrite Z.sub_diag. change (20 <? Z.abs 0)%Z with false. cbv iota.
  rewrite levenshtein_spec, editDistance_refl, Nat.max_id.
  destruct (length (normalize s) =? 0); [reflexivity|].
  rewrite ratio_zero. reflexivity.
Qed.

(** X7.  When the two normalised texts differ in length by at most 20
    characters, so that the edit distance is used, the similarity is
    symmetric and lies between 0 and 1. *)
Theorem similarity_of_close_lengths (str1 str2 : text) :
  (Z.abs (Z.of_nat (length (normalize str1))
          - Z.of_nat (length (normalize str2))) <= 20)%Z ->
  stringSimilarity str1 str2 = stringSimilarity str2 str1
  /\ (0 <= stringSimilarity str1 str2 <= 1)%Q.
Proof.
  intros H. unfold stringSimilarity. cbv zeta.
  assert (E1 : (20 <? Z.abs (Z.of_nat (length (normalize str1))
                             - Z.of_nat (length (normalize str2))))%Z
               = false) by (apply Z.ltb_ge; assumption).
  assert (E2 : (20 <? Z.abs (Z.of_nat (length (normalize str2))
                             - Z.of_nat (length (normalize str1))))%Z
               = false) by (apply Z.ltb_ge; lia).
  rewrite E1, E2, !levenshtein_spec.
  rewrite (editDistance_sym (normalize str2)), (Nat.max_comm (length (normalize str2))).
  split; [reflexivity|].
  pose proof (editDistance_upper (normalize str1) (normalize str2)) as U.
  destruct (Nat.max _ _ =? 0) eqn:E.
  - split; discriminate.
  - apply Nat.eqb_neq in E.
    pose proof (ratio_nonneg (editDistance (normalize str1) (normalize str2))
                  _ E) as P.
    pose proof (ratio_le_1 _ _ E U) as Q.
    now apply one_minus_bounds.
Qed.

Lemma similarity_of_close_lengths_witness :
  stringSimilarity (str "Unused variable x.") (str "Unused import y.")
  = stringSimilarity (str "Unused import y.") (str "Unused variable x.")
  /\ (0 <= stringSimilarity (str "Unused variable x.")
            (str "Unused import y.") <= 1)%Q.
Proof.
  apply similarity_of_close_lengths. vm_compute. discriminate.
Defined.

(** X8.  The word-based similarity is never negative and always below 2;
    it is at most 1 when no word of at least three characters occurs twice
    in the first text.  It can exceed 1 otherwise, because every
    occurrence of a shared word in the first text is counted. *)
Theorem word_similarity_bounds (str1 str2 : text) :
  (0 <= wordBasedSimilarity str1 str2 < 2)%Q
  /\ (NoDup (filter (fun w => 2 <? length w) (splitRegex isSpace str1)) ->
      (wordBasedSimilarity str1 str2 <= 1)%Q)
  /\ wordBasedSimilarity (str "abc abc abc") (str "abc") = (6 # 4)%Q.
Proof.
  unfold wordBasedSimilarity. cbv zeta.
  set (words1 := filter (fun w => 2 <? length w) (splitRegex isSpace str1)).
  set (words2 := filter (fun w => 2 <? length w) (splitRegex isSpace str2)).
  pose proof (filter_length_le (arrayIncludes words2) words1) as Hs.
  clearbody words1 words2. unfold text in *.
  split; [|split; [|vm_compute; reflexivity]].
  - destruct ((length words1 =? 0) || (length words2 =? 0)) eqn:E.
    + split; [discriminate|reflexivity].
    + apply orb_false_iff in E. destruct E as [E1 E2].
      apply Nat.eqb_neq in E1, E2. split.
      * apply ratio_nonneg. lia.
      * apply ratio_lt_2; lia.
  - intros Hnd.
    destruct ((length words1 =? 0) || (length words2 =? 0)) eqn:E;
      [discriminate|].
    apply orb_false_iff in E. destruct E as [E1 E2].
    apply Nat.eqb_neq in E1, E2.
    pose proof (shared_le_other words1 words2 Hnd) as Hle.
    unfold text in *. apply ratio_le_1; lia.
Qed.

(** ** Keyword sets and their overlap *)

Import KeywordShape.

Section KeywordSetFacts.

Lemma dedupeFrom_NoDup (l : list text) : forall seen,
  NoDup (dedupeFrom seen l).
Proof.
  induction l as [|x l IH]; intros seen; cbn [dedupeFrom]; [constructor|].
  destruct (arrayIncludes seen x); [apply IH|].
  constructor; [|apply IH]. intros H. apply dedupeFrom_In in H.
  destruct H as [_ H]. unfold arrayIncludes in H. cbn [existsb] in H.
  apply orb_false_iff in H. destruct H as [H _].
  assert (text_eqb x x = true) by now apply text_eqb_eq. congruence.
Qed.

Lemma dedupe_NoDup (l : list text) : NoDup (dedupe l).
Proof. apply dedupeFrom_NoDup. Qed.

Lemma toLower_not_upper (c : ascii) : isUpper (toLower c) = false.
Proof.
  destruct c as [b0 b1 b2 b3 b4 b5 b6 b7].
  destruct b0, b1, b2, b3, b4, b5, b6, b7; vm_compute; reflexivity.
Qed.

Lemma toLower_backtick (c : ascii) : isBacktick (toLower c) = isBacktick c.
Proof.
  destruct c as [b0 b1 b2 b3 b4 b5 b6 b7].
  destruct b0, b1, b2, b3, b4, b5, b6, b7; vm_compute; reflexivity.
Qed.

Lemma word_not_backtick (c : ascii) : isWord c = true -> isBacktick c = false.
Proof.
  destruct c as [b0 b1 b2 b3 b4 b5 b6 b7].
  destruct b0, b1, b2, b3, b4, b5, b6, b7; vm_compute; intros H;
    first [reflexivity | discriminate H].
Qed.

(** The pieces of a split hold characters of the text that are not
    separators. *)
Lemma splitRuns_chars (sep : ascii -> bool) (s : text) : forall inSep w c,
  In w (splitRuns sep inSep s) -> In c w -> In c s /\ sep c = false.
Proof.
  induction s as [|x s IH]; intros inSep w c Hw Hc.
  - simpl in Hw. destruct Hw as [<-|[]]. destruct Hc.
  - cbn [splitRuns] in Hw. destruct (sep x) eqn:E.
    + assert (In w (splitRuns sep true s) \/ w = []) as [H| ->].
      { destruct inSep; [now left|]. destruct Hw as [<-|Hw]; auto. }
      * destruct (IH _ _ _ H Hc). split; [now right|assumption].
      * destruct Hc.
    + destruct (splitRuns sep false s) as [|w0 ws] eqn:S.
      * destruct Hw as [<-|[]]. destruct Hc as [<-|[]]. split; [now left|auto].
      * destruct Hw as [<-|Hw].
        -- destruct Hc as [<-|Hc]; [split; [now left|assumption]|].
           destruct (IH false w0 c) as [H1 H2];
             [rewrite S; now left|assumption|].
           split; [now right|assumption].
        -- destruct (IH false w c) as [H1 H2];
             [rewrite S; now right|assumption|].
           split; [now right|assumption].
Qed.

Lemma codeElements_plain (s w : text) :
  In w (codeElements s) -> forallb plainLower w = true.
Proof.
  unfold codeElements. intros H. apply in_map_iff in H.
  destruct H as (m & <- & _). unfold toLowerCase.
  apply forallb_forall. intros c Hc. apply in_map_iff in Hc.
  destruct Hc as (c0 & <- & Hc0). apply filter_In in Hc0.
  destruct Hc0 as [_ Hc0]. unfold plainLower.
  now rewrite toLower_not_upper, toLower_backtick, Hc0.
Qed.

Lemma technicalTerms_plain (s w : text) :
  In w (technicalTerms s) -> forallb plainLower w = true.
Proof.
  unfold technicalTerms, words, splitRegex. intros H.
  apply filter_In in H. destruct H as [H _].
  apply filter_In in H. destruct H as [H _].
  apply forallb_forall. intros c Hc.
  destruct (splitRuns_chars _ _ _ _ _ H Hc) as [Hin Hw].
  apply negb_false_iff in Hw. unfold toLowerCase in Hin.
  apply in_map_iff in Hin. destruct Hin as (c0 & <- & _).
  unfold plainLower. rewrite toLower_not_upper.
  now rewrite (word_not_backtick _ Hw).
Qed.

Lemma same_elements_same_length (l1 l2 : list text) :
  NoDup l1 -> NoDup l2 -> (forall x, In x l1 <-> In x l2) ->
  length l1 = length l2.
Proof.
  intros H1 H2 H. apply Permutation_length. now apply NoDup_Permutation.
Qed.

Lemma union_size_sym (k1 k2 : list text) :
  length (dedupe (k1 ++ k2)) = length (dedupe (k2 ++ k1)).
Proof.
  apply same_elements_same_length; try apply dedupe_NoDup.
  intros x. rewrite !dedupe_In, !in_app_iff. tauto.
Qed.

Lemma matching_size_sym (k1 k2 : list text) :
  NoDup k1 -> NoDup k2 ->
  length (filter (arrayIncludes k2) k1) = length (filter (arrayIncludes k1) k2).
Proof.
  intros H1 H2. apply same_elements_same_length; try now apply NoDup_filter.
  intros x. rewrite !filter_In, !arrayIncludes_In. tauto.
Qed.

Lemma overlap_sym (k1 k2 : list text) :
  NoDup k1 -> NoDup k2 ->
  calculateKeywordOverlap k1 k2 = calculateKeywordOverlap k2 k1.
Proof.
  intros H1 H2. unfold calculateKeywordOverlap. cbv zeta.
  rewrite (orb_comm (length k2 =? 0)).
  now rewrite (matching_size_sym k1 k2), (union_size_sym k1 k2).
Qed.

Lemma overlap_range (k1 k2 : list text) :
  NoDup k1 -> (0 <= calculateKeywordOverlap k1 k2 <= 1)%Q.
Proof.
  intros H1. unfold calculateKeywordOverlap. cbv zeta.
  destruct ((length k1 =? 0) || (length k2 =? 0)) eqn:E.
  - split; discriminate.
  - apply orb_false_iff in E. destruct E as [E1 _]. apply Nat.eqb_neq in E1.
    assert (Hle : length (filter (arrayIncludes k2) k1)
                  <= length (dedupe (k1 ++ k2))).
    { apply NoDup_incl_length; [now apply NoDup_filter|].
      intros x Hx. apply filter_In in Hx. apply dedupe_In, in_app_iff. tauto. }
    assert (Hne : length (dedupe (k1 ++ k2)) <> 0).
    { destruct k1 as [|x k1]; [exfalso; now apply E1|].
      assert (In x (dedupe ((x :: k1) ++ k2)))
        by (apply dedupe_In; now left).
      destruct (dedupe ((x :: k1) ++ k2)); [contradiction|discriminate]. }
    split; [now apply ratio_nonneg|now apply ratio_le_1].
Qed.

Lemma overlap_self (k : list text) :
  NoDup k -> k <> [] -> (calculateKeywordOverlap k k == 1)%Q.
Proof.
  intros H Hne. unfold calculateKeywordOverlap. cbv zeta.
  destruct k as [|x k']; [congruence|]. set (k := x :: k') in *.
  change ((length k =? 0) || (length k =? 0)) with false. cbv iota.
  assert (E1 : length (filter (arrayIncludes k) k) = length k).
  { apply same_elements_same_length; [now apply NoDup_filter|assumption|].
    intros y. rewrite filter_In, arrayIncludes_In. tauto. }
  assert (E2 : length (dedupe (k ++ k)) = length k).
  { apply same_elements_same_length; [apply dedupe_NoDup|assumption|].
    intros y. rewrite dedupe_In, in_app_iff. tauto. }
  rewrite E1, E2. apply ratio_same. discriminate.
Qed.

End KeywordSetFacts.

(** X9.  The keywords of a comment are pairwise different, and none of
    them holds a capital letter A-Z or a backtick. *)
Theorem keywords_distinct_and_lower_case (commentText : text) :
  NoDup (extractKeywordsFromComment commentText)
  /\ forall w c,
       In w (extractKeywordsFromComment commentText) -> In c w ->
       isUpper c = false /\ isBacktick c = false.
Proof.
  split; [apply dedupe_NoDup|].
  intros w c Hw Hc. unfold extractKeywordsFromComment in Hw.
  apply dedupe_In, in_app_or in Hw.
  assert (P : forallb plainLower w = true).
  { destruct Hw; [now apply codeElements_plain with commentText
                 |now apply technicalTerms_plain with commentText]. }
  rewrite forallb_forall in P. specialize (P c Hc). unfold plainLower in P.
  apply andb_true_iff in P. destruct P as [P1 P2].
  now apply negb_true_iff in P1, P2.
Qed.

(** X10.  The keyword overlap of two comments does not depend on their
    order and lies between 0 and 1; a comment that has a keyword has
    overlap 1 with itself. *)
Theorem keyword_overlap_of_comments (a b : text) :
  let ka := extractKeywordsFromComment a in
  let kb := extractKeywordsFromComment b in
  calculateKeywordOverlap ka kb = calculateKeywordOverlap kb ka
  /\ (0 <= calculateKeywordOverlap ka kb <= 1)%Q
  /\ (ka <> [] -> (calculateKeywordOverlap ka ka == 1)%Q).
Proof.
  intros ka kb.
  assert (Ha : NoDup ka) by apply dedupe_NoDup.
  assert (Hb : NoDup kb) by apply dedupe_NoDup.
  split; [now apply overlap_sym|]. split; [now apply overlap_range|].
  now apply overlap_self.
Qed.

(** ** More on the de-duplicator *)

(** X11.  The decision over a concatenation of existing comments is the
    disjunction of the decisions over the parts, so adding existing comments
    can turn a new comment into a duplicate but never back. *)
Theorem duplicate_over_more_comments
  (newComment : comment) (l1 l2 : list comment) (lineProximity : option Z) :
  isDuplicateComment newComment (l1 ++ l2) lineProximity
  = isDuplicateComment newComment l1 lineProximity
    || isDuplicateComment newComment l2 lineProximity
  /\ forall l',
       incl l1 l' ->
       isDuplicateComment newComment l1 lineProximity = true ->
       isDuplicateComment newComment l' lineProximity = true.
Proof.
  rewrite !isDuplicateComment_existsb. split; [apply existsb_app|].
  intros l' Hincl. rewrite isDuplicateComment_existsb, !existsb_exists.
  intros (e & He & H). exists e. split; [now apply Hincl|assumption].
Qed.

(** X12.  A comment that is a duplicate for some proximity is a duplicate
    for every greater one. *)
Theorem duplicate_for_greater_proximity
  (newComment : comment) (existingComments : list comment) (p p' : Z) :
  (p <= p')%Z ->
  isDuplicateComment newComment existingComments (Some p) = true ->
  isDuplicateComment newComment existingComments (Some p') = true.
Proof.
  intros Hp. rewrite !isDuplicateComment_existsb. cbn [proximityOf].
  rewrite !existsb_exists. intros (e & He & H). exists e.
  split; [assumption|]. unfold nearMatch in *.
  apply andb_true_iff in H. destruct H as [H1 H2]. rewrite H2.
  apply Z.leb_le in H1. rewrite andb_true_r. apply Z.leb_le. lia.
Qed.

Lemma duplicate_for_greater_proximity_witness :
  isDuplicateComment
    (mkComment 10 (str "Unused variable `fooBar` should be removed."))
    [mkComment 12 (str "Unused variable `bazQux` should be removed.")]
    (Some 5%Z) = true.
Proof.
  apply (duplicate_for_greater_proximity _ _ 2 5).
  - lia.
  - vm_compute. reflexivity.
Defined.

(** X13.  With a negative proximity no comment is a duplicate, whatever
    the existing comments are. *)
Theorem negative_proximity_never_duplicate
  (newComment : comment) (existingComments : list comment) (p : Z) :
  (p < 0)%Z ->
  isDuplicateComment newComment existingComments (Some p) = false.
Proof.
  intros Hneg. rewrite isDuplicateComment_existsb. cbn [proximityOf].
  destruct (existsb _ _) eqn:E; [|reflexivity].
  apply existsb_exists in E. destruct E as (e & _ & H).
  unfold nearMatch in H. apply andb_true_iff in H. destruct H as [H _].
  apply Z.leb_le in H. unfold lineDiff in H.
  pose proof (Z.abs_nonneg (line e - line newComment)). lia.
Qed.

Lemma negative_proximity_never_duplicate_witness :
  isDuplicateComment
    (mkComment 10 (str "Unused variable `fooBar` should be removed."))
    [mkComment 10 (str "Unused variable `fooBar` should be removed.")]
    (Some (-1)%Z) = false.
Proof.
  apply negative_proximity_never_duplicate. lia.
Defined.

(** ** More on comment templates *)

Import Identifiers.

Section TemplateFacts.

Lemma identifier_same_start prev prev' (s : text) :
  atWordStart prev = atWordStart prev' ->
  replaceFrom identifier 0 prev s = replaceFrom identifier 0 prev' s.
Proof.
  intros H. destruct s as [|c r]; [reflexivity|].
  cbn [replaceFrom]. unfold identifier at 1 3. now rewrite H.
Qed.

Lemma prevAfter_word_run (r : text) : forall c,
  isWord c = true -> forallb isWord r = true ->
  atWordStart (prevAfter (Some c) r) = false.
Proof.
  unfold prevAfter.
  induction r as [|d r IH]; intros c Hc Hr.
  - simpl. now rewrite Hc.
  - cbn [forallb] in Hr. apply andb_true_iff in Hr. destruct Hr as [Hd Hr].
    cbn [fold_left]. now apply IH.
Qed.

Lemma run_ends_inside (f : ascii -> bool) (r X : text) :
  forallb f r = false ->
  takeWhile f (r ++ X) = takeWhile f r
  /\ dropWhile f (r ++ X) = dropWhile f r ++ X.
Proof.
  induction r as [|d r IH]; intros H; [discriminate|].
  cbn [forallb] in H. change ((d :: r) ++ X) with (d :: (r ++ X)).
  cbn [takeWhile dropWhile]. destruct (f d); [|auto].
  destruct (IH H) as [E1 E2]. now rewrite E1, E2.
Qed.

Lemma prevAfter_dropWhile (f : ascii -> bool) (r : text) : forall p p',
  forallb f r = false ->
  prevAfter p (dropWhile f r) = prevAfter p' r.
Proof.
  unfold prevAfter.
  induction r as [|d r IH]; intros p p' H; [discriminate|].
  cbn [forallb] in H. cbn [dropWhile]. destruct (f d).
  - cbn [fold_left]. now apply IH.
  - reflexivity.
Qed.

(** The walk of Case 1 over [a ++ X] is the walk over [a] followed by the
    walk over [X], when a token may start right after [a]. *)
Lemma identifier_app (n : nat) : forall a prev X,
  length a <= n ->
  atWordStart (prevAfter prev a) = true ->
  replaceFrom identifier 0 prev (a ++ X)
  = replaceFrom identifier 0 prev a ++ replaceFrom identifier 0 None X.
Proof.
  induction n as [|n IH]; intros a prev X Hlen H.
  - destruct a; [|simpl in Hlen; lia]. simpl.
    now apply identifier_same_start.
  - destruct a as [|c r]; [simpl; now apply identifier_same_start|].
    simpl in Hlen. change ((c :: r) ++ X) with (c :: (r ++ X)).
    change (prevAfter prev (c :: r)) with (prevAfter (Some c) r) in H.
    destruct (atWordStart prev && isLetter c) eqn:E.
    + apply andb_true_iff in E. destruct E as [Hp Hc].
      assert (Hr : forallb isWord r = false).
      { destruct (forallb isWord r) eqn:R; [|reflexivity].
        rewrite (prevAfter_word_run r c (letter_isWord _ Hc) R) in H.
        discriminate. }
      rewrite !(identifier_token prev None) by assumption.
      destruct (run_ends_inside isWord r X Hr) as [E1 E2].
      rewrite E1, E2, <- app_assoc. f_equal.
      apply IH.
      * pose proof (dropWhile_length isWord r). lia.
      * now rewrite (prevAfter_dropWhile isWord r None (Some c)).
    + rewrite !identifier_other by assumption. simpl. f_equal.
      apply IH; [lia|assumption].
Qed.

Lemma identifier_around_token (a t b : text) :
  endsAtWordStart a = true -> isToken t = true -> startsNoWord b = true ->
  replaceIdentifiers (a ++ t ++ b)
  = replaceIdentifiers a ++ classify t ++ replaceFrom identifier 0 None b.
Proof.
  unfold replaceIdentifiers, replaceAll, endsAtWordStart. intros Ha Ht Hb.
  rewrite (identifier_app (length a)) by auto. f_equal.
  destruct t as [|c t]; [discriminate|]. cbn [isToken] in Ht.
  apply andb_true_iff in Ht. destruct Ht as [Hc Ht].
  change ((c :: t) ++ b) with (c :: (t ++ b)).
  rewrite (identifier_token None None) by auto.
  destruct (run_then_stop t b Ht Hb) as [E1 E2]. now rewrite E1, E2.
Qed.

Lemma identifier_no_letter (s : text) : forall prev,
  hasNoLetter s = true -> replaceFrom identifier 0 prev s = s.
Proof.
  unfold hasNoLetter. induction s as [|c r IH]; intros prev H; [reflexivity|].
  cbn [forallb] in H. apply andb_true_iff in H. destruct H as [Hc Hr].
  apply negb_true_iff in Hc.
  rewrite identifier_other by (rewrite Hc; apply andb_false_r).
  now rewrite IH.
Qed.

Lemma dropWhile_In (f : ascii -> bool) (r : text) (c : ascii) :
  In c (dropWhile f r) -> In c r.
Proof.
  induction r as [|d r IH]; [auto|]. cbn [dropWhile].
  destruct (f d); [|auto]. intros H. right. auto.
Qed.

Lemma methodCall_no_letter (s : text) prev :
  hasNoLetter s = true -> methodCall prev s = None.
Proof.
  unfold hasNoLetter, methodCall. intros H.
  destruct s as [|dot r]; [reflexivity|].
  destruct (Ascii.eqb dot "."); [|reflexivity].
  destruct (dropWhile isSpace r) as [|c r1] eqn:E; [reflexivity|].
  assert (Hc : In c (dot :: r)).
  { right. apply (dropWhile_In isSpace). rewrite E. now left. }
  rewrite forallb_forall in H. specialize (H c Hc).
  apply negb_true_iff in H. now rewrite H.
Qed.

Lemma replaceMethodCalls_no_letter (s : text) : forall prev,
  hasNoLetter s = true -> replaceFrom methodCall 0 prev s = s.
Proof.
  induction s as [|c r IH]; intros prev H; [reflexivity|].
  rewrite replaceFrom_no_match by now apply methodCall_no_letter.
  f_equal. apply IH. unfold hasNoLetter in *. cbn [forallb] in H.
  apply andb_true_iff in H. tauto.
Qed.

End TemplateFacts.

(** X14.  Case 2 of [extractCommentTemplate], the rule for
    [json.loads on X], never applies: when it runs, Case 1 has already
    replaced the word [loads], so the template is what Case 3 makes of the
    output of Case 1. *)
Theorem json_loads_rule_never_applies (comment : text) :
  extractCommentTemplate comment
  = replaceMethodCalls (replaceIdentifiers comment)
  /\ replaceEnvVar (replaceIdentifiers comment) = replaceIdentifiers comment.
Proof.
  unfold extractCommentTemplate. cbv zeta.
  now rewrite replaceEnvVar_after_identifiers.
Qed.

(** X15.  A comment without any letter A-Z or a-z is its own template. *)
Theorem template_without_letter (comment : text) :
  hasNoLetter comment = true -> extractCommentTemplate comment = comment.
Proof.
  intros H. unfold extractCommentTemplate. cbv zeta.
  rewrite replaceEnvVar_after_identifiers.
  unfold replaceMethodCalls, replaceIdentifiers, replaceAll.
  rewrite identifier_no_letter by assumption.
  now apply replaceMethodCalls_no_letter.
Qed.

Lemma template_without_letter_witness :
  extractCommentTemplate (str "404 -> 100% (50/50)?!")
  = str "404 -> 100% (50/50)?!".
Proof. apply template_without_letter. vm_compute. reflexivity. Defined.

(** X16.  Replacing one identifier of a comment by another identifier of
    the same class (both variables, or both class names, or the same kept
    word) does not change the template; hence two such comments within the
    proximity are duplicates of each other. *)
Theorem template_ignores_identifier_name
  (a t1 t2 b : text) (l1 l2 : Z) (lineProximity : option Z) :
  endsAtWordStart a = true -> startsNoWord b = true ->
  isToken t1 = true -> isToken t2 = true ->
  classify t1 = classify t2 ->
  (Z.abs (l2 - l1) <= proximityOf lineProximity)%Z ->
  extractCommentTemplate (a ++ t1 ++ b) = extractCommentTemplate (a ++ t2 ++ b)
  /\ isDuplicateComment (mkComment l1 (a ++ t1 ++ b))
       [mkComment l2 (a ++ t2 ++ b)] lineProximity = true.
Proof.
  intros Ha Hb H1 H2 Hc Hnear.
  assert (E : extractCommentTemplate (a ++ t1 ++ b)
              = extractCommentTemplate (a ++ t2 ++ b)).
  { unfold extractCommentTemplate. cbv zeta.
    now rewrite !identifier_around_token, Hc by assumption. }
  split; [exact E|].
  rewrite isDuplicateComment_existsb. cbn [existsb]. rewrite orb_false_r.
  unfold nearMatch, lineDiff. cbn [line body].
  apply andb_true_iff. split; [now apply Z.leb_le|].
  apply matches_iff. left. cbn [body]. now rewrite E.
Qed.

Lemma template_ignores_identifier_name_witness :
  extractCommentTemplate
    (str "Unused variable `" ++ str "fooBar" ++ str "` should be removed.")
  = extractCommentTemplate
    (str "Unused variable `" ++ str "bazQux" ++ str "` should be removed.")
  /\ isDuplicateComment
       (mkComment 10 (str "Unused variable `" ++ str "fooBar"
                      ++ str "` should be removed."))
       [mkComment 12 (str "Unused variable `" ++ str "bazQux"
                      ++ str "` should be removed.")] None = true.
Proof.
  apply template_ignores_identifier_name;
    try (vm_compute; reflexivity).
  vm_compute. discriminate.
Defined.

(** ** The section of a file in the diff of a pull request *)

Import FileDiff Review.

Section FileDiffFacts.

Variable filename : text.

Lemma collect_inside (ls : list text) :
  exists body after,
    ls = body ++ after
    /\ Forall (fun l => isDiffHeader l = false) body
    /\ match after with
       | [] => True
       | l :: _ => isDiffHeader l = true
       end
    /\ collect filename true ls = body.
Proof.
  induction ls as [|l ls (body & after & E & Hb & Ha & Hc)].
  - exists [], []. repeat split; constructor.
  - cbn [collect]. destruct (isDiffHeader l) eqn:H.
    + exists [], (l :: ls). repeat split; [constructor|assumption].
    + exists (l :: body), after. rewrite Hc, E. repeat split; auto.
Qed.

Lemma collect_outside (ls : list text) :
  (Forall (fun l => opensFile filename l = false) ls
   /\ collect filename false ls = [])
  \/ exists before header body after,
       ls = before ++ header :: body ++ after
       /\ Forall (fun l => opensFile filename l = false) before
       /\ opensFile filename header = true
       /\ Forall (fun l => isDiffHeader l = false) body
       /\ match after with
          | [] => True
          | l :: _ => isDiffHeader l = true
          end
       /\ collect filename false ls = header :: body.
Proof.
  induction ls as [|l ls IH].
  - left. split; [constructor|reflexivity].
  - cbn [collect]. destruct (opensFile filename l) eqn:O.
    + right. unfold opensFile in O. apply andb_true_iff in O.
      destruct O as [O1 O2]. rewrite O1, O2.
      destruct (collect_inside ls) as (body & after & E & Hb & Ha & Hc).
      exists [], l, body, after. rewrite Hc, E.
      repeat split; try assumption; try constructor.
      unfold opensFile. now rewrite O1, O2.
    + assert (E : (if isDiffHeader l
                   then if namesFile filename l
                        then l :: collect filename true ls
                        else collect filename false ls
                   else collect filename false ls)
                  = collect filename false ls).
      { unfold opensFile in O. destruct (isDiffHeader l); [|reflexivity].
        simpl in O. now rewrite O. }
      rewrite E. destruct IH as [[Hn Hc]|(before & header & body & after
                                          & E' & Hb & Hh & Hbody & Ha & Hc)].
      * left. split; [now constructor|assumption].
      * right. exists (l :: before), header, body, after.
        repeat split; try assumption; [now rewrite E'|now constructor].
Qed.

Lemma split_lines_no_LF (s : text) :
  Forall (fun l => hasNoLF l = true) (split LF s).
Proof.
  induction s as [|c s IH]; [repeat constructor|].
  cbn [split]. destruct (Ascii.eqb c LF) eqn:E.
  - constructor; [reflexivity|assumption].
  - destruct (split LF s) as [|w ws]; [repeat constructor; simpl; now rewrite E|].
    inversion IH; subst. constructor; [|assumption].
    unfold hasNoLF in *. cbn [forallb]. now rewrite E.
Qed.

End FileDiffFacts.

(** X17.  The fallback of [getDiff] returns the empty string when no line
    of the pull-request diff is a [diff --git] header that names the file;
    otherwise it returns, joined by line feeds, the first such header and
    the lines after it up to, and not including, the next [diff --git]
    header, and these are exactly the lines of the result. *)
Theorem target_file_diff_is_first_section (diffData filename : text) :
  (Forall (fun l => opensFile filename l = false) (split LF diffData)
   /\ targetFileDiff diffData filename = [])
  \/ exists before header body after,
       split LF diffData = before ++ header :: body ++ after
       /\ Forall (fun l => opensFile filename l = false) before
       /\ opensFile filename header = true
       /\ Forall (fun l => isDiffHeader l = false) body
       /\ match after with
          | [] => True
          | l :: _ => isDiffHeader l = true
          end
       /\ targetFileDiff diffData filename = join LF (header :: body)
       /\ split LF (targetFileDiff diffData filename) = header :: body.
Proof.
  unfold targetFileDiff.
  destruct (collect_outside filename (split LF diffData))
    as [[Hn Hc]|(before & header & body & after & E & Hb & Hh & Hbody & Ha & Hc)].
  - left. rewrite Hc. auto.
  - right. exists before, header, body, after. rewrite Hc.
    repeat split; try assumption.
    apply split_join; [discriminate|].
    pose proof (split_lines_no_LF diffData) as Hlf. rewrite E in Hlf.
    apply Forall_app in Hlf. destruct Hlf as [_ Hlf].
    inversion Hlf as [|? ? H1 H2]; subst. constructor; [assumption|].
    apply Forall_app in H2. tauto.
Qed.

(** ** What is posted *)

Section ReviewFacts.

Lemma isValidLine_In (ls : list Z) (x : Z) :
  isValidLine ls x = true <-> In x ls.
Proof.
  unfold isValidLine. rewrite existsb_exists. split.
  - intros (y & Hy & E). apply Z.eqb_eq in E. now subst.
  - intros H. exists x. split; [assumption|apply Z.eqb_refl].
Qed.

Lemma formatComment_suffix (comment : text) (prefix : option text) :
  exists pre, formatComment comment prefix = pre ++ comment.
Proof.
  unfold formatComment. destruct prefix as [[|c p]|].
  - now exists [].
  - exists ((c :: p) ++ str " "). now rewrite <- app_assoc.
  - now exists [].
Qed.

End ReviewFacts.

(** X18.  Whatever [reviewFile] posts for a file comes from a comment of
    the model: it keeps the line and ends with the body of that comment, it
    is attached to the file on the side [RIGHT], its line is one of the
    commentable lines of the diff, which lies in the range of a hunk when
    the hunks of the diff end at or below 2^53, and it is not a duplicate of
    an existing comment.  Nothing is posted for a removed or binary file or
    for a diff of more than 1000 lines. *)
Theorem posted_comments_are_valid
  (status : text) (binary : bool) (diff filename : text)
  (commentPrefix : option text)
  (existingComments reviewComments : list comment) (p : reviewComment) :
  In p (commentsToPost status binary diff filename commentPrefix
          existingComments reviewComments) ->
  status <> str "removed" /\ binary = false
  /\ length (split LF diff) <= 1000
  /\ path p = filename /\ side p = str "RIGHT"
  /\ exists c,
       In c reviewComments
       /\ rline p = line c
       /\ (exists pre, rbody p = pre ++ body c)
       /\ In (line c) (extractValidCommentLines diff)
       /\ (forallb countsExactly (hunks (split LF diff)) = true ->
           exists h, In h (hunks (split LF diff))
                     /\ (newStart h <= line c < hunkEnd h)%Z)
       /\ isDuplicateComment c existingComments None = false.
Proof.
  unfold commentsToPost.
  destruct (text_eqb status (str "removed")) eqn:S; [intros []|].
  destruct binary; [intros []|]. cbn [orb].
  destruct (text_eqb (trim diff) []); [intros []|].
  destruct (1000 <? length (split LF diff)) eqn:L; [intros []|].
  cbv zeta. destruct (length (extractValidCommentLines diff) =? 0);
    [intros []|].
  intros H. apply in_map_iff in H. destruct H as (c & <- & Hc).
  apply filter_In in Hc. destruct Hc as [Hin Hc].
  destruct (isValidLine (extractValidCommentLines diff) (line c)) eqn:V;
    [|discriminate].
  apply negb_true_iff in Hc. apply isValidLine_In in V.
  apply Nat.ltb_ge in L.
  split. { intros E. apply text_eqb_eq in E. congruence. }
  repeat split; try assumption.
  exists c. repeat split; try assumption.
  - apply formatComment_suffix.
  - intros B.
    rewrite extractValidCommentLines_scan, scanLines_hunks_exact, in_concat
      in V by assumption.
    destruct V as (l & Hl & Hx). apply in_map_iff in Hl.
    destruct Hl as (h & <- & Hh). exists h. split; [assumption|].
    now apply In_numberFrom_range.
Qed.

Lemma posted_comments_are_valid_witness :
  let diff := join LF (map str ["@@ -1,2 +1,3 @@"; " a"; "+b"; " c"]%string) in
  let reviewComments := [mkComment 2 (str "Unused variable x.");
                         mkComment 9 (str "Off the diff.")] in
  let p := mkReviewComment (str "a.js") (str "Unused variable x.") 2
             (str "RIGHT") in
  str "modified" <> str "removed" /\ false = false
  /\ length (split LF diff) <= 1000
  /\ path p = str "a.js" /\ side p = str "RIGHT"
  /\ exists c,
       In c reviewComments
       /\ rline p = line c
       /\ (exists pre, rbody p = pre ++ body c)
       /\ In (line c) (extractValidCommentLines diff)
       /\ (forallb countsExactly (hunks (split LF diff)) = true ->
           exists h, In h (hunks (split LF diff))
                     /\ (newStart h <= line c < hunkEnd h)%Z)
       /\ isDuplicateComment c [] None = false.
Proof.
  intros diff reviewComments p.
  apply (posted_comments_are_valid (str "modified") false diff (str "a.js")
           None [] reviewComments p).
  vm_compute. left. reflexivity.
Defined.

(** Beyond 2^53 a posted comment can sit outside the range of every hunk:
    the hunk below starts at line 2^53 + 2 and has two added lines, the
    cursor gives them the numbers 2^53 + 2 and 2^53 + 4, and a comment on
    line 2^53 + 4 is posted although the range of the hunk ends before it. *)
Example posted_line_beyond_2_53 :
  let diff := join LF (map str ["@@ -1 +9007199254740994 @@"; "+a";
                                "+b"]%string) in
  let c := mkComment 9007199254740996 (str "Unused variable x.") in
  commentsToPost (str "modified") false diff (str "a.js") None [] [c]
  = [mkReviewComment (str "a.js") (str "Unused variable x.")
       9007199254740996 (str "RIGHT")]
  /\ map (fun h => (newStart h, hunkEnd h)) (hunks (split LF diff))
     = [(9007199254740994, 9007199254740996)%Z].
Proof. split; vm_compute; reflexivity. Qed.

(** ** Merging configurations *)

Import Config.

Section ConfigFacts.

Lemma mergeConfigs_fold (target source : value) :
  mergeConfigs target source
  = Obj (fold_left (assign target) (ownEntries source) (ownEntries target)).
Proof.
  destruct source as [| |b|q|s|l|o]; try reflexivity.
  - cbn [mergeConfigs ownEntries]. f_equal. generalize (ownEntries target).
    generalize 0.
    induction s as [|c s IH]; intros i m; [reflexivity|].
    cbn [map indexed fold_left]. now rewrite IH.
  - cbn [mergeConfigs ownEntries]. f_equal. generalize (ownEntries target).
    generalize 0.
    induction l as [|v l IH]; intros i m; [reflexivity|].
    cbn [indexed fold_left]. rewrite IH. unfold assign. cbn [fst snd].
    destruct v; reflexivity.
  - cbn [mergeConfigs ownEntries]. f_equal. generalize (ownEntries target).
    induction o as [|[k v] o IH]; intros m; [reflexivity|].
    cbn [fold_left]. rewrite IH. unfold assign. cbn [fst snd].
    destruct v; reflexivity.
Qed.

Lemma get_set (key k : text) (v : value) (o : object) :
  get key (set k v o) = if text_eqb k key then Some v else get key o.
Proof.
  unfold set. induction o as [|[k' v'] o IH]; simpl; [reflexivity|].
  rewrite IH. destruct (text_eqb k key); reflexivity.
Qed.

Lemma get_fold_assign (target : value) (key : text) (es : object) :
  forall merged,
    get key (fold_left (assign target) es merged)
    = match get key es with
      | Some v =>
          Some (if isPlainObject v
                then mergeConfigs (orEmptyObject (getProp target key)) v
                else v)
      | None => get key merged
      end.
Proof.
  induction es as [|[k v] es IH]; intros merged; [reflexivity|].
  cbn [fold_left get]. rewrite IH. destruct (get key es); [reflexivity|].
  unfold assign. cbn [fst snd]. rewrite get_set.
  destruct (text_eqb k key) eqn:E; [|reflexivity].
  apply text_eqb_eq in E. now subst.
Qed.

(** What a lookup in the merged configuration gives. *)
Lemma getProp_merge (target source : value) (key : text) :
  getProp (mergeConfigs target source) key
  = match getProp source key with
    | Some v =>
        Some (if isPlainObject v
              then mergeConfigs (orEmptyObject (getProp target key)) v
              else v)
    | None => getProp target key
    end.
Proof.
  rewrite mergeConfigs_fold. unfold getProp at 1. cbn [ownEntries].
  apply get_fold_assign.
Qed.

Lemma getPath_orEmpty (p : list text) (o : option value) :
  p <> [] ->
  getPath p (orEmptyObject o)
  = match o with
    | Some x => getPath p x
    | None => None
    end.
Proof.
  intros Hp. destruct p as [|k p]; [congruence|].
  destruct o as [x|]; [|reflexivity]. unfold orEmptyObject.
  destruct (truthy x) eqn:T; [reflexivity|].
  destruct x as [| |b|q|s|l|o]; try reflexivity; try discriminate.
  destruct s; [reflexivity|discriminate].
Qed.

(** X19.  The user's setting wins at any depth: a value of the user
    configuration that is not a plain object (a number, a string, a
    boolean, [null], an array) is found at the same path in the merged
    configuration.  Arrays are replaced as a whole, not merged. *)
Theorem user_setting_wins (p : list text) : forall target source v,
  p <> [] -> getPath p source = Some v -> isPlainObject v = false ->
  getPath p (mergeConfigs target source) = Some v.
Proof.
  induction p as [|key p IH]; intros target source v Hp H Hv; [congruence|].
  cbn [getPath] in *. rewrite getProp_merge.
  destruct (getProp source key) as [u|]; [|discriminate].
  destruct p as [|key' p].
  - cbn [getPath] in *. injection H as ->. now rewrite Hv.
  - destruct (isPlainObject u) eqn:U; [|assumption].
    apply IH; [discriminate|assumption|assumption].
Qed.

(** X20.  A setting that the user configuration does not mention keeps
    its default at any depth: when some key on the path is missing in the
    user configuration and the values before it are plain objects, the
    merged configuration and the default configuration have the same value
    at the path. *)
Theorem untouched_setting_keeps_default (p : list text) :
  forall target source,
  untouched p source = true ->
  getPath p (mergeConfigs target source) = getPath p target.
Proof.
  induction p as [|key p IH]; intros target source H; [discriminate|].
  cbn [getPath untouched] in *. rewrite getProp_merge.
  destruct (getProp source key) as [u|]; [|reflexivity].
  apply andb_true_iff in H. destruct H as [U H]. rewrite U.
  rewrite IH by assumption.
  apply getPath_orEmpty. destruct p; discriminate.
Qed.

End ConfigFacts.

Lemma user_setting_wins_witness :
  getPath (map str ["models"; "openai"; "model"]%string)
    (mergeConfigs
       (Obj [(str "addSummaryComment", Bool true);
             (str "models",
              Obj [(str "openai",
                    Obj [(str "model", Str (str "gpt-4"));
                         (str "maxTokens", Num 1000)])])])
       (Obj [(str "models",
              Obj [(str "openai", Obj [(str "model", Str (str "gpt-4o"))])])]))
  = Some (Str (str "gpt-4o")).
Proof.
  apply user_setting_wins.
  - discriminate.
  - vm_compute. reflexivity.
  - reflexivity.
Defined.

Lemma untouched_setting_keeps_default_witness :
  getPath (map str ["models"; "openai"; "maxTokens"]%string)
    (mergeConfigs
       (Obj [(str "addSummaryComment", Bool true);
             (str "models",
              Obj [(str "openai",
                    Obj [(str "model", Str (str "gpt-4"));
                         (str "maxTokens", Num 1000)])])])
       (Obj [(str "models",
              Obj [(str "openai", Obj [(str "model", Str (str "gpt-4o"))])])]))
  = getPath (map str ["models"; "openai"; "maxTokens"]%string)
    (Obj [(str "addSummaryComment", Bool true);
          (str "models",
           Obj [(str "openai",
                 Obj [(str "model", Str (str "gpt-4"));
                      (str "maxTokens", Num 1000)])])]).
Proof.
  apply untouched_setting_keeps_default. vm_compute. reflexivity.
Defined.

(** ** Comments read from a plain-text response *)

Import ResponseText.

Section ResponseTextFacts.

Lemma class_then_stop (f : ascii -> bool) (t X : text) :
  forallb f t = true -> stopsAt f X = true ->
  takeWhile f (t ++ X) = t /\ dropWhile f (t ++ X) = X.
Proof.
  intros Ht HX. induction t as [|c t IH].
  - destruct X as [|d X]; [auto|]. cbn [stopsAt] in HX.
    apply negb_true_iff in HX. simpl. now rewrite HX.
  - cbn [forallb] in Ht. apply andb_true_iff in Ht. destruct Ht as [Hc Ht].
    destruct (IH Ht) as [E1 E2]. simpl. rewrite Hc, E1, E2. auto.
Qed.

Lemma dropWhile_stopsAt (f : ascii -> bool) (s : text) :
  stopsAt f (dropWhile f s) = true.
Proof.
  induction s as [|c s IH]; [reflexivity|]. cbn [dropWhile].
  destruct (f c) eqn:E; [assumption|]. cbn [stopsAt]. now rewrite E.
Qed.

Lemma dropWhile_fixed (f : ascii -> bool) (s : text) :
  stopsAt f s = true -> dropWhile f s = s.
Proof.
  destruct s as [|c s]; [reflexivity|]. cbn [stopsAt dropWhile].
  intros H. apply negb_true_iff in H. now rewrite H.
Qed.

Lemma stopsAt_prefix (f : ascii -> bool) (a b : text) :
  a <> [] -> stopsAt f (a ++ b) = true -> stopsAt f a = true.
Proof. destruct a; [congruence|auto]. Qed.

Lemma trim_fixed (s : text) :
  stopsAt isSpace s = true -> stopsAt isSpace (rev s) = true -> trim s = s.
Proof.
  intros H1 H2. unfold trim, trimStart.
  rewrite (dropWhile_fixed _ _ H1), (dropWhile_fixed _ _ H2).
  apply rev_involutive.
Qed.

Lemma trim_ends (s : text) :
  stopsAt isSpace (trim s) = true /\ stopsAt isSpace (rev (trim s)) = true.
Proof.
  unfold trim, trimStart. rewrite rev_involutive. split.
  - set (a := dropWhile isSpace s).
    destruct (rev (dropWhile isSpace (rev a))) as [|c t] eqn:E; [reflexivity|].
    pose proof (takeWhile_dropWhile isSpace (rev a)) as D.
    apply (f_equal (@rev ascii)) in D.
    rewrite rev_app_distr, rev_involutive, E in D.
    pose proof (dropWhile_stopsAt isSpace s) as S. fold a in S.
    rewrite <- D in S. exact S.
  - apply dropWhile_stopsAt.
Qed.

Lemma trim_idempotent (s : text) : trim (trim s) = trim s.
Proof. destruct (trim_ends s). now apply trim_fixed. Qed.

Lemma trim_In (s : text) (c : ascii) : In c (trim s) -> In c s.
Proof.
  unfold trim, trimStart. intros H. apply in_rev in H.
  apply dropWhile_In in H. apply in_rev in H.
  now apply dropWhile_In in H.
Qed.

Lemma fold_digits_nonneg (d : text) : forall acc,
  (0 <= acc)%Z -> forallb isDigit d = true ->
  (0 <= fold_left (fun acc c => 10 * acc + digitVal c) d acc)%Z.
Proof.
  induction d as [|c d IH]; intros acc G H; [exact G|].
  cbn [forallb fold_left] in *. apply andb_true_iff in H.
  destruct H as [Hc H]. apply IH; [|assumption].
  unfold isDigit, inRange in Hc. apply andb_true_iff in Hc.
  destruct Hc as [Hc _]. apply N.leb_le in Hc. unfold digitVal. lia.
Qed.

Lemma parseInt_nonneg (d : text) :
  forallb isDigit d = true -> (0 <= parseInt d)%Z.
Proof. apply fold_digits_nonneg. lia. Qed.

Lemma startsWithIgnoreCase_length (p : text) : forall s,
  startsWithIgnoreCase p s = true -> length p <= length s.
Proof.
  induction p as [|a p IH]; intros s H; [simpl; lia|].
  destruct s as [|b s]; [discriminate|]. cbn [startsWithIgnoreCase] in H.
  apply andb_true_iff in H. destruct H as [_ H]. apply IH in H. simpl. lia.
Qed.

(** What a match of the pattern gives. *)
Lemma lineRegex_shape (s : text) (len : nat) (c : comment) :
  lineRegex s = Some (len, c) ->
  (0 <= line c)%Z /\ trim (body c) = body c
  /\ forallb inLine (body c) = true /\ 7 <= len <= length s.
Proof.
  unfold lineRegex.
  destruct (startsWithIgnoreCase (str "line") s) eqn:L; [|discriminate].
  pose proof (startsWithIgnoreCase_length _ _ L) as L4.
  change (length (str "line")) with 4 in L4.
  pose proof (takeWhile_dropWhile isSeparator (skipn 4 s)) as D1.
  destruct (takeWhile isSeparator (skipn 4 s)) as [|a sep1] eqn:E1;
    [discriminate|].
  set (s2 := dropWhile isSeparator (skipn 4 s)) in *.
  pose proof (takeWhile_dropWhile isDigit s2) as D2.
  pose proof (takeWhile_all isDigit s2) as A2.
  destruct (takeWhile isDigit s2) as [|b digits] eqn:E2; [discriminate|].
  set (s3 := dropWhile isDigit s2) in *.
  pose proof (takeWhile_dropWhile isSeparator s3) as D3.
  destruct (takeWhile isSeparator s3) as [|e sep2] eqn:E3; [discriminate|].
  set (s4 := dropWhile isSeparator s3) in *.
  pose proof (takeWhile_dropWhile inLine s4) as D4.
  intros H. injection H as <- <-. cbn [line body].
  repeat split.
  - now apply toDouble_nonneg, parseInt_nonneg.
  - apply trim_idempotent.
  - apply forallb_forall. intros x Hx. apply trim_In in Hx.
    pose proof (takeWhile_all inLine s4) as A4.
    rewrite forallb_forall in A4. now apply A4.
  - simpl. lia.
  - pose proof (firstn_skipn 4 s) as F.
    apply (f_equal (@length ascii)) in F, D1, D2, D3, D4.
    rewrite length_app in F, D1, D2, D3, D4.
    rewrite firstn_length_le in F by exact L4.
    clearbody s2 s3 s4. cbn [length] in *. unfold text in *. lia.
Qed.

Lemma commentsFrom_In (s : text) : forall skip c,
  In c (commentsFrom skip s) ->
  exists s' len, lineRegex s' = Some (len, c).
Proof.
  induction s as [|x s IH]; intros skip c H; [destruct H|].
  cbn [commentsFrom] in H. destruct skip as [|k]; [|eauto].
  destruct (lineRegex (x :: s)) as [[len c']|] eqn:E; [|eauto].
  destruct H as [<-|H]; eauto.
Qed.

Lemma commentsFrom_skip (a X : text) :
  commentsFrom (length a) (a ++ X) = commentsFrom 0 X.
Proof.
  induction a as [|c a IH]; [|exact IH].
  destruct X; reflexivity.
Qed.

Lemma commentsFrom_match (s X : text) (c : comment) :
  lineRegex (s ++ X) = Some (length s, c) ->
  commentsFrom 0 (s ++ X) = c :: commentsFrom 0 X.
Proof.
  intros H. destruct s as [|x s].
  - apply lineRegex_shape in H. simpl in H. lia.
  - cbn [app commentsFrom] in *. rewrite H. cbn [length pred].
    now rewrite commentsFrom_skip.
Qed.

Lemma wellFormed_parts (e : text * text) :
  wellFormed e = true ->
  fst e <> [] /\ forallb isDigit (fst e) = true
  /\ stopsAt isSeparator (snd e) = true /\ snd e <> []
  /\ forallb inLine (snd e) = true /\ trim (snd e) = snd e
  /\ (parseInt (fst e) < maxExact)%Z.
Proof.
  unfold wellFormed. destruct e as [d b]. cbn [fst snd]. intros H.
  rewrite !andb_true_iff in H.
  destruct H as ((((H1 & H2) & H3) & H4) & H5).
  apply text_eqb_eq in H4. apply Z.ltb_lt in H5.
  destruct d as [|x d]; [discriminate|].
  destruct b as [|y b]; [discriminate|].
  repeat split; try assumption; discriminate.
Qed.

Lemma digit_not_separator (c : ascii) :
  isDigit c = true -> isSeparator c = false.
Proof.
  destruct c as [[] [] [] [] [] [] [] []]; vm_compute; congruence.
Qed.

(** A rendered line is read back whole when the text ends after it or
    goes on with a line terminator. *)
Lemma lineRegex_render (e : text * text) (X : text) :
  wellFormed e = true -> stopsAt inLine X = true ->
  lineRegex (render e ++ X)
  = Some (length (render e), mkComment (parseInt (fst e)) (snd e)).
Proof.
  intros W HX. apply wellFormed_parts in W.
  destruct e as [d b]. cbn [fst snd] in *.
  destruct W as (Hd & Dd & Sb & Hb & Lb & Tb & Bd).
  unfold lineRegex, render. cbn [fst snd].
  change (str "line " ++ d ++ str ": " ++ b)
    with (str "line" ++ str " " ++ d ++ str ": " ++ b).
  rewrite <- !app_assoc.
  change (startsWithIgnoreCase (str "line")
            (str "line" ++ str " " ++ d ++ str ": " ++ b ++ X)) with true.
  cbv iota.
  change (skipn 4 (str "line" ++ str " " ++ d ++ str ": " ++ b ++ X))
    with (str " " ++ d ++ str ": " ++ b ++ X).
  assert (S1 : stopsAt isSeparator (d ++ str ": " ++ b ++ X) = true).
  { destruct d as [|x d]; [congruence|]. cbn [app stopsAt forallb] in *.
    apply andb_true_iff in Dd. destruct Dd as [Dx _].
    now rewrite (digit_not_separator _ Dx). }
  destruct (class_then_stop isSeparator (str " ") _ eq_refl S1) as [-> ->].
  assert (S2 : stopsAt isDigit (str ": " ++ b ++ X) = true) by reflexivity.
  destruct (class_then_stop isDigit d _ Dd S2) as [-> ->].
  assert (S3 : stopsAt isSeparator (b ++ X) = true).
  { destruct b; [congruence|exact Sb]. }
  destruct (class_then_stop isSeparator (str ": ") _ eq_refl S3) as [-> ->].
  destruct (class_then_stop inLine b X Lb HX) as [-> _].
  rewrite Tb. destruct d as [|x d]; [congruence|].
  rewrite toDouble_exact by lia.
  cbn [str list_ascii_of_string app].
  f_equal. f_equal. cbn [length]. rewrite length_app. cbn [length]. lia.
Qed.

(** X22.  Lines of the form [line N: body], joined by line feeds, are
    read back one comment per line, in the order of the lines, each with
    the number and the body of its line. *)
Theorem rendered_lines_are_read_back (es : list (text * text)) :
  Forall (fun e => wellFormed e = true) es ->
  extractCommentsFromText (join LF (map render es))
  = map (fun e => mkComment (parseInt (fst e)) (snd e)) es.
Proof.
  unfold extractCommentsFromText.
  induction es as [|e es IH]; intros H; [reflexivity|].
  inversion H as [|? ? W H']; subst. specialize (IH H').
  destruct es as [|e2 es].
  - cbn [map join]. rewrite <- (app_nil_r (render e)).
    rewrite (commentsFrom_match _ _ _ (lineRegex_render e [] W eq_refl)).
    reflexivity.
  - change (join LF (map render (e :: e2 :: es)))
      with (render e ++ LF :: join LF (map render (e2 :: es))).
    rewrite (commentsFrom_match _ _ _
               (lineRegex_render e (LF :: _) W eq_refl)).
    cbn [map]. f_equal. exact IH.
Qed.

End ResponseTextFacts.

(** X21.  Every comment that the Anthropic and Azure adapters read from
    a plain-text response has a line number that is not negative and a
    body that is trimmed and holds no line break. *)
Theorem comments_from_text_are_single_lines (t : text) (c : comment) :
  In c (extractCommentsFromText t) ->
  (0 <= line c)%Z /\ trim (body c) = body c
  /\ forallb inLine (body c) = true.
Proof.
  intros H. apply commentsFrom_In in H. destruct H as (s' & len & H).
  apply lineRegex_shape in H. tauto.
Qed.

Lemma comments_from_text_are_single_lines_witness :
  (0 <= 12)%Z /\ trim (str "use const") = str "use const"
  /\ forallb inLine (str "use const") = true.
Proof.
  apply (comments_from_text_are_single_lines
           (str "Outline:7 x" ++ LF :: str "Line 12:  use const  ")
           (mkComment 12 (str "use const"))).
  vm_compute. right. left. reflexivity.
Defined.

Lemma rendered_lines_are_read_back_witness :
  extractCommentsFromText
    (join LF (map render [(str "12", str "use const: line 3 is stale");
                          (str "7", str "x = 1")]))
  = [mkComment 12 (str "use const: line 3 is stale");
     mkComment 7 (str "x = 1")].
Proof.
  apply (rendered_lines_are_read_back
           [(str "12", str "use const: line 3 is stale");
            (str "7", str "x = 1")]).
  constructor; [reflexivity|]. constructor; [reflexivity|]. constructor.
Defined.

(** ** The sort by severity *)

Import Severity.

Section SeverityFacts.

Variable A : Type.
Variable severity : A -> option text.

(** The rank of a comment by the word of its severity. *)
Lemma rank_cases (a : A) :
  hasInherited severity a = false ->
  rank (severity a)
  = Some (if isMedium severity a then 1
          else if isLow severity a then 2 else 3)%Z.
Proof.
  unfold hasInherited, isMedium, isLow, hasSeverity, rank.
  destruct (severity a) as [s|]; [|reflexivity].
  destruct s as [|c s]; [reflexivity|].
  set (k := toLowerCase (c :: s)). unfold severityOrder. intros H.
  apply orb_false_iff in H. destruct H as [H1 H2]. rewrite H1, H2.
  destruct (text_eqb k (str "high")) eqn:E1.
  - apply text_eqb_eq in E1. rewrite E1. reflexivity.
  - destruct (text_eqb k (str "medium")) eqn:E2; [reflexivity|].
    destruct (text_eqb k (str "low")) eqn:E3; reflexivity.
Qed.

Lemma medium_not_low (a : A) :
  isLow severity a = true -> isMedium severity a = false.
Proof.
  unfold isMedium, isLow, hasSeverity.
  destruct (severity a) as [s|]; [|reflexivity]. intros H.
  apply text_eqb_eq in H. rewrite H. reflexivity.
Qed.

(** The order of two comments by their groups. *)
Lemma inOrder_cases (a b : A) :
  hasInherited severity a = false -> hasInherited severity b = false ->
  inOrder severity a b
  = ((if isMedium severity a then 1
      else if isLow severity a then 2 else 3)
     <=? (if isMedium severity b then 1
          else if isLow severity b then 2 else 3))%Z.
Proof.
  intros Ha Hb. unfold inOrder, compare.
  rewrite (rank_cases a Ha), (rank_cases b Hb).
  destruct (isMedium severity a), (isLow severity a),
    (isMedium severity b), (isLow severity b); reflexivity.
Qed.

Lemma insert_first (a : A) (l : list A) :
  match l with [] => True | b :: _ => inOrder severity a b = true end ->
  insert severity a l = a :: l.
Proof. destruct l as [|b l]; [reflexivity|]. simpl. now intros ->. Qed.

Lemma insert_after (a : A) (p q : list A) :
  Forall (fun b => inOrder severity a b = false) p ->
  insert severity a (p ++ q) = p ++ insert severity a q.
Proof.
  induction 1 as [|b p Hb _ IH]; [reflexivity|].
  simpl. now rewrite Hb, IH.
Qed.

Lemma head_In (b : A) (t l : list A) (P : A -> Prop) :
  l = b :: t -> (forall x, In x l -> P x) -> P b.
Proof. intros -> H. apply H. now left. Qed.

(** X23.  The sort by severity of the OpenAI adapter puts the comments of
    severity [medium] first, then those of severity [low], then all the
    others, each group in the order it had: comments of severity [high]
    are not moved to the front, they stay among the comments with an
    unknown severity or none, because the rank 0 of [high] is falsy and is
    replaced by 3.  (The severities [constructor] and [__proto__] give a
    comparator that is no order, and are left out.) *)
Theorem severity_sort_groups (l : list A) :
  Forall (fun a => hasInherited severity a = false) l ->
  sortBySeverity severity l
  = filter (isMedium severity) l ++ filter (isLow severity) l
    ++ filter (isOther severity) l.
Proof.
  induction 1 as [|a l Ha Hl IH]; [reflexivity|].
  cbn [sortBySeverity]. rewrite IH. clear IH.
  rewrite Forall_forall in Hl.
  assert (O : forall b, In b l -> inOrder severity a b = _) by
    (intros b Hb; exact (inOrder_cases a b Ha (Hl b Hb))).
  pose proof (medium_not_low a) as ML.
  assert (Oa : isOther severity a
               = negb (isMedium severity a) && negb (isLow severity a))
    by reflexivity.
  cbn [filter]. rewrite Oa. clear Oa.
  destruct (isMedium severity a) eqn:M, (isLow severity a) eqn:L;
    try (specialize (ML eq_refl); discriminate); cbn [negb andb app].
  - apply insert_first.
    destruct (filter _ l ++ filter _ l ++ filter _ l) as [|b t] eqn:E;
      [exact I|].
    apply (head_In b t _ (fun x => inOrder severity a x = true) E). intros x Hx.
    rewrite !in_app_iff, !filter_In in Hx.
    assert (Hb : In x l) by tauto. rewrite (O x Hb).
    destruct (isMedium severity x), (isLow severity x); reflexivity.
  - rewrite insert_after.
    + f_equal. cbn [app]. apply insert_first.
      destruct (filter _ l ++ filter _ l) as [|b t] eqn:E; [exact I|].
      apply (head_In b t _ (fun x => inOrder severity a x = true) E). intros x Hx.
      rewrite !in_app_iff, !filter_In in Hx.
      destruct Hx as [[Hb Lx]|[Hb Ox]]; rewrite (O x Hb).
      * now rewrite (medium_not_low x Lx), Lx.
      * unfold isOther in Ox. apply andb_true_iff in Ox.
        destruct Ox as [Mx Lx]. apply negb_true_iff in Mx, Lx.
        now rewrite Mx, Lx.
    + apply Forall_forall. intros b Hb. apply filter_In in Hb.
      destruct Hb as [Hb Mb]. now rewrite (O b Hb), Mb.
  - rewrite app_assoc, insert_after.
    + rewrite <- app_assoc. f_equal. f_equal. apply insert_first.
      destruct (filter _ l) as [|b t] eqn:E; [exact I|].
      apply (head_In b t _ (fun x => inOrder severity a x = true) E). intros x Hx. apply filter_In in Hx.
      destruct Hx as [Hb Ox]. rewrite (O x Hb).
      unfold isOther in Ox. apply andb_true_iff in Ox.
      destruct Ox as [Mx Lx]. apply negb_true_iff in Mx, Lx.
      now rewrite Mx, Lx.
    + apply Forall_forall. intros b Hb. apply in_app_iff in Hb.
      destruct Hb as [Hb|Hb]; apply filter_In in Hb; destruct Hb as [Hb Sb];
        rewrite (O b Hb).
      * now rewrite Sb.
      * now rewrite (medium_not_low b Sb), Sb.
Qed.

End SeverityFacts.

Lemma severity_sort_groups_witness :
  sortBySeverity snd
    [(1%Z, Some (str "High")); (2%Z, Some (str "low")); (3%Z, None);
     (4%Z, Some (str "MEDIUM")); (5%Z, Some (str "high"));
     (6%Z, Some (str "Low"))]
  = [(4%Z, Some (str "MEDIUM")); (2%Z, Some (str "low"));
     (6%Z, Some (str "Low")); (1%Z, Some (str "High")); (3%Z, None);
     (5%Z, Some (str "high"))].
Proof.
  apply (severity_sort_groups (Z * option text) snd
           [(1%Z, Some (str "High")); (2%Z, Some (str "low")); (3%Z, None);
            (4%Z, Some (str "MEDIUM")); (5%Z, Some (str "high"));
            (6%Z, Some (str "Low"))]).
  repeat (constructor; [reflexivity|]). constructor.
Defined.
